(** * Listing Mapper backend: overlay layout engine, image compositor, router

    A shallow embedding of [services/image-composer.ts] (the overlay layout
    engine [generateOverlaySVG] and the compositor [composeMapImage]) and of
    the two procedures of [router.ts] that the specification talks about
    ([config.getApiKeys] and [config.compositeMap]).

    - JavaScript strings are sequences of UTF-16 code units ([list N]);
      [length], [substring] and [trim] count code units, as the language does.
    - JavaScript numbers are IEEE 754 binary64 values, taken from the
      Standard Library's executable specification [SpecFloat], so that
      [Math.max], [/], [*] and [Math.round] are computed bit for bit.
    - [Number::toString] and [Number.prototype.toFixed] follow ECMA-262.
    - Exceptions and [console.error] are threaded explicitly. *)

From Stdlib Require Import ZArith NArith QArith Qround Qabs Qpower Lia Lqa.
From Stdlib Require Strings.String Strings.Ascii.
From Stdlib Require Import Floats.SpecFloat.
From stdpp Require Import base option list gmap.
Import String.StringSyntax.
Delimit Scope string_scope with string.

Local Open Scope Z_scope.

(** ** JavaScript strings *)

Module JS.

Abbreviation jsstring := (list N).

Fixpoint lit (s : String.string) : jsstring :=
  match s with
  | String.EmptyString => []
  | String.String a r => Ascii.N_of_ascii a :: lit r
  end.
Arguments lit _%_string.

(** The double quote U+0022, and the bullet U+25CF of the closest-locations
    entries (the only character of the template outside ASCII). *)
Definition dq : jsstring := [34%N].
Definition bullet : jsstring := [9679%N].
Definition nl : jsstring := [10%N].

(** [String.prototype.substring(start, end)]: both indices are clamped to
    the length and swapped when out of order; [None] is an omitted [end]. *)
Definition substring (s : jsstring) (start : nat) (end_ : option nat) : jsstring :=
  let len := length s in
  let a := Nat.min start len in
  let b := match end_ with Some e => Nat.min e len | None => len end in
  take (Nat.max a b - Nat.min a b)%nat (drop (Nat.min a b) s).

(** WhiteSpace and LineTerminator code points of ECMA-262, for [trim]. *)
Definition is_white_space (c : N) : bool :=
  bool_decide (c ∈ [9; 10; 11; 12; 13; 32; 160; 5760; 8192; 8193; 8194; 8195;
                    8196; 8197; 8198; 8199; 8200; 8201; 8202; 8232; 8233;
                    8239; 8287; 12288; 65279]%N).

Fixpoint trim_start (s : jsstring) : jsstring :=
  match s with
  | c :: r => if is_white_space c then trim_start r else s
  | [] => []
  end.

Definition trim_end (s : jsstring) : jsstring := reverse (trim_start (reverse s)).
Definition trim (s : jsstring) : jsstring := trim_end (trim_start s).

(** Truthiness of a string: the empty string is the only falsy one. *)
Definition truthy_string (s : jsstring) : bool :=
  match s with [] => false | _ => true end.

(** *** Decimal digits *)

Definition digit (d : Z) : N := (48 + Z.to_N d)%N.

Fixpoint digits_aux (fuel : nat) (n : Z) (acc : jsstring) : jsstring :=
  match fuel with
  | O => acc
  | S fuel' =>
      let acc' := digit (n mod 10) :: acc in
      if n / 10 =? 0 then acc' else digits_aux fuel' (n / 10) acc'
  end.

(** The decimal digits of a non-negative integer, most significant first. *)
Definition decimal (n : Z) : jsstring :=
  digits_aux (S (Z.to_nat (Z.log2 n))) n [].

(** ** JavaScript numbers: IEEE 754 binary64 *)

Abbreviation number := spec_float.

Definition prec : Z := 53.
Definition emax : Z := 1024.

(** An integer as a Number (exact below 2^53, rounded to nearest above). *)
Definition num (z : Z) : number := binary_normalize prec emax z 0 false.

Definition add : number -> number -> number := SFadd prec emax.
Definition sub : number -> number -> number := SFsub prec emax.
Definition mul : number -> number -> number := SFmul prec emax.
Definition div : number -> number -> number := SFdiv prec emax.

(** [x === y] and [x !== y] on Numbers: NaN differs from everything, the
    two zeros are equal. *)
Definition strict_eq (x y : number) : bool := SFeqb x y.
Definition strict_neq (x y : number) : bool := negb (SFeqb x y).

(** Truthiness of a Number: the zeros and NaN are falsy. *)
Definition truthy_number (x : number) : bool :=
  match x with
  | S754_zero _ | S754_nan => false
  | _ => true
  end.

(** [Math.max] of two Numbers: NaN is contagious and +0 is above -0. *)
Definition Math_max (a b : number) : number :=
  match a, b with
  | S754_nan, _ | _, S754_nan => S754_nan
  | S754_zero sa, S754_zero sb => S754_zero (sa && sb)
  | _, _ => if SFltb a b then b else a
  end.

(** [Math.round]: the integral Number closest to [x], ties towards
    +Infinity; a result of zero keeps the sign of [x]. *)
Definition Math_round (x : number) : number :=
  match x with
  | S754_finite s m e =>
      if 0 <=? e then x
      else
        let n := (2 * cond_Zopp s (Zpos m) + 2 ^ (- e)) / 2 ^ (- e + 1) in
        if n =? 0 then S754_zero s else num n
  | _ => x
  end.

(** The exact rational value of a finite Number of mantissa [m] and
    exponent [e]. *)
Definition Qval (m : positive) (e : Z) : Q := (inject_Z (Zpos m) * (2 # 1) ^ e)%Q.

Definition Qlt_bool (a b : Q) : bool := negb (Qle_bool b a).
Definition Qten (t : Z) : Q := ((10 # 1) ^ t)%Q.

(** *** Number::toString (radix 10) *)

Fixpoint log10_down (fuel : nat) (x : Q) (L : Z) : Z :=
  match fuel with
  | O => L
  | S f => if Qle_bool (Qten L) x then L else log10_down f x (L - 1)
  end.

Fixpoint log10_up (fuel : nat) (x : Q) (L : Z) : Z :=
  match fuel with
  | O => L
  | S f => if Qle_bool (Qten (L + 1)) x then log10_up f x (L + 1) else L
  end.

(** The integer [L] with [10^L <= x < 10^(L+1)], for the value of a
    finite Number. *)
Definition floor_log10 (m : positive) (e : Z) : Z :=
  let x := Qval m e in
  let est := ((Zpos (digits2_pos m) + e - 1) * 30103) / 100000 in
  log10_up 4 x (log10_down 4 x est).

(** Does the real [v] read back as the Number [m * 2^e]? The interval of
    reals that round to it is closed when the mantissa is even. *)
Definition reads_back (m : positive) (e : Z) (v : Q) : bool :=
  let x := Qval m e in
  let up := ((2 # 1) ^ (e - 1))%Q in
  let down :=
    if (Pos.eqb m (2 ^ 52)) && (-1074 <? e) then ((2 # 1) ^ (e - 2))%Q
    else ((2 # 1) ^ (e - 1))%Q in
  if Z.even (Zpos m)
  then Qle_bool (x - down) v && Qle_bool v (x + up)
  else Qlt_bool (x - down) v && Qlt_bool v (x + up).

(** The digit strings of [k] digits around [x]: the pairs [(s, n)] stand
    for [s * 10^(n-k)]. *)
Definition candidates (x : Q) (L k : Z) : list (Z * Z) :=
  let s := Qfloor (x / Qten (L - k + 1)) in
  [ (s, L + 1);
    if s + 1 =? 10 ^ k then (10 ^ (k - 1), L + 2) else (s + 1, L + 1) ].

Definition candidate_value (k : Z) (c : Z * Z) : Q :=
  (inject_Z (fst c) * Qten (snd c - k))%Q.

Definition Qdist (a b : Q) : Q := Qabs (a - b).

(** Of the candidates that read back, the one closest to [x]; the even
    one on a tie. *)
Definition pick (m : positive) (e : Z) (k : Z) (cs : list (Z * Z)) : option (Z * Z) :=
  let x := Qval m e in
  match filter (λ c, Is_true (reads_back m e (candidate_value k c))) cs with
  | [] => None
  | [c] => Some c
  | c1 :: c2 :: _ =>
      let d1 := Qdist (candidate_value k c1) x in
      let d2 := Qdist (candidate_value k c2) x in
      if Qlt_bool d1 d2 then Some c1
      else if Qlt_bool d2 d1 then Some c2
      else if Z.even (fst c1) then Some c1 else Some c2
  end.

(** The shortest digit string: the least [k] for which some [s] of [k]
    digits has [s * 10^(n-k)] read back as the Number; 17 digits always
    suffice for binary64. *)
Fixpoint shortest (fuel : nat) (m : positive) (e : Z) (L k : Z) : Z * Z * Z :=
  match pick m e k (candidates (Qval m e) L k) with
  | Some (s, n) => (s, k, n)
  | None =>
      match fuel with
      | O => (Qfloor (Qval m e / Qten (L - k + 1)), k, L + 1)
      | S f => shortest f m e L (k + 1)
      end
  end.

Definition shortest_digits (m : positive) (e : Z) : Z * Z * Z :=
  shortest 16 m e (floor_log10 m e) 1.

Definition zeros (n : Z) : jsstring := replicate (Z.to_nat n) 48%N.

Definition exponent_part (ex : Z) : jsstring :=
  lit "e" ++ (if ex <? 0 then lit "-" else lit "+") ++ decimal (Z.abs ex).

(** Steps 6 to 10 of Number::toString: where the decimal point goes. *)
Definition layout_digits (s k n : Z) : jsstring :=
  let ds := decimal s in
  if (k <=? n) && (n <=? 21) then ds ++ zeros (n - k)
  else if (0 <? n) && (n <=? 21) then
    take (Z.to_nat n) ds ++ lit "." ++ drop (Z.to_nat n) ds
  else if (-6 <? n) && (n <=? 0) then lit "0." ++ zeros (- n) ++ ds
  else if k =? 1 then ds ++ exponent_part (n - 1)
  else take 1 ds ++ lit "." ++ drop 1 ds ++ exponent_part (n - 1).

(** The value of a finite Number when it is an integer below 2^53. *)
Definition safe_integer (m : positive) (e : Z) : option Z :=
  if (e <=? 0) && (Zpos m mod 2 ^ (- e) =? 0) && (Zpos m / 2 ^ (- e) <? 2 ^ 53)
  then Some (Zpos m / 2 ^ (- e)) else None.

(** Number::toString. An integer below 2^53 prints as its decimal digits,
    which is what the shortest-digits rule yields for it (no shorter digit
    string denotes the same integer, and no other integer reads back as
    it); every other finite value goes through [shortest_digits]. *)
Definition to_string_finite (m : positive) (e : Z) : jsstring :=
  match safe_integer m e with
  | Some n => decimal n
  | None => let '(s, k, n) := shortest_digits m e in layout_digits s k n
  end.

Definition NumberToString (x : number) : jsstring :=
  match x with
  | S754_nan => lit "NaN"
  | S754_zero _ => lit "0"
  | S754_infinity s => (if s then lit "-" else []) ++ lit "Infinity"
  | S754_finite s m e => (if s then lit "-" else []) ++ to_string_finite m e
  end.

(** *** Number.prototype.toFixed *)

(** The digits of [n / 10^f] with [f] digits after the point ([f > 0]). *)
Definition fixed_digits (n : Z) (f : nat) : jsstring :=
  let ds := decimal n in
  let ds := replicate (S f - length ds)%nat 48%N ++ ds in
  take (length ds - f)%nat ds ++ lit "." ++ drop (length ds - f)%nat ds.

Definition toFixed (x : number) (f : nat) : jsstring :=
  match x with
  | S754_nan | S754_infinity _ => NumberToString x
  | S754_zero _ => fixed_digits 0 f
  | S754_finite s m e =>
      if Qle_bool (Qten 21) (Qval m e) then NumberToString x
      else
        (if s then lit "-" else []) ++
        fixed_digits (Qfloor (Qval m e * Qten (Z.of_nat f) + (1 # 2))) f
  end.

(** Arithmetic on Numbers, written as in the source. *)
Declare Scope js_scope.
Delimit Scope js_scope with js.
Infix "+" := add : js_scope.
Infix "-" := sub : js_scope.
Infix "*" := mul : js_scope.
Infix "/" := div : js_scope.

(** ** Property lookup on an object literal

    [obj[key]] on an object literal finds the literal's own properties
    first and then those of [Object.prototype], which every object literal
    inherits from. *)

Inductive value :=
  | VUndefined
  | VString (s : jsstring)
  | VBuiltin (fname : jsstring)   (* a built-in function object *)
  | VObject.                      (* an ordinary object *)

(** The properties of [Object.prototype] (ECMA-262, with Annex B). The
    accessor [__proto__] yields the prototype of the receiver, which for an
    object literal is [Object.prototype] itself. *)
Definition ObjectPrototype : gmap jsstring value :=
  list_to_map
    [ (lit "constructor", VBuiltin (lit "Object"));
      (lit "hasOwnProperty", VBuiltin (lit "hasOwnProperty"));
      (lit "isPrototypeOf", VBuiltin (lit "isPrototypeOf"));
      (lit "propertyIsEnumerable", VBuiltin (lit "propertyIsEnumerable"));
      (lit "toLocaleString", VBuiltin (lit "toLocaleString"));
      (lit "toString", VBuiltin (lit "toString"));
      (lit "valueOf", VBuiltin (lit "valueOf"));
      (lit "__defineGetter__", VBuiltin (lit "__defineGetter__"));
      (lit "__defineSetter__", VBuiltin (lit "__defineSetter__"));
      (lit "__lookupGetter__", VBuiltin (lit "__lookupGetter__"));
      (lit "__lookupSetter__", VBuiltin (lit "__lookupSetter__"));
      (lit "__proto__", VObject) ].

Definition get (own : gmap jsstring jsstring) (key : jsstring) : value :=
  match own !! key with
  | Some s => VString s
  | None => default VUndefined (ObjectPrototype !! key)
  end.

Definition truthy (v : value) : bool :=
  match v with
  | VUndefined => false
  | VString s => truthy_string s
  | VBuiltin _ | VObject => true
  end.

(** [ToString], as a template literal applies it to an interpolated value. *)
Definition ToString (v : value) : jsstring :=
  match v with
  | VUndefined => lit "undefined"
  | VString s => s
  | VBuiltin f => lit "function " ++ f ++ lit "() { [native code] }"
  | VObject => lit "[object Object]"
  end.

(** [a || b] on a looked-up value and a string default. *)
Definition or_else (v : value) (d : jsstring) : value :=
  if truthy v then v else VString d.

(** An ASCII decimal digit. *)
Definition is_digit (c : N) : bool := ((48 <=? c) && (c <=? 57))%N.

End JS.

(** * The overlay layout engine and the compositor (image-composer.ts) *)

Module ImageComposer.
Import JS.

Record Stats := {
  restaurants : number;
  grocery : number;
  shopping : number;
  parks : number
}.

Record POI := {
  name : jsstring;
  category : jsstring;
  distance : number
}.

Record CompositeMapInput := {
  mapUrl : jsstring;
  address : jsstring;
  radius : number;
  stats : Stats;
  closestPOIs : list POI
}.

(** ** generateOverlaySVG *)

(** The scale factor and the fourteen size constants of lines 36 to 53. *)
Record Layout := {
  scale : number;
  padding : number;
  boxPadding : number;
  titleFontSize : number;
  textFontSize : number;
  smallFontSize : number;
  dotSize : number;
  lineHeight : number;
  borderRadius : number;
  addressBoxWidth : number;
  addressBoxHeight : number;
  amenitiesBoxWidth : number;
  amenitiesBoxHeight : number;
  closestBoxWidth : number;
  closestBoxHeight : number
}.

Definition layout (width height : number) : Layout :=
  let baseScale := (Math_max width height / num 1000)%js in
  let scale := Math_max baseScale (num 1) in
  {| scale := scale;
     padding := Math_round (num 12 * scale)%js;
     boxPadding := Math_round (num 10 * scale)%js;
     titleFontSize := Math_round (num 14 * scale)%js;
     textFontSize := Math_round (num 11 * scale)%js;
     smallFontSize := Math_round (num 10 * scale)%js;
     dotSize := Math_round (num 8 * scale)%js;
     lineHeight := Math_round (num 16 * scale)%js;
     borderRadius := Math_round (num 6 * scale)%js;
     addressBoxWidth := Math_round (num 240 * scale)%js;
     addressBoxHeight := Math_round (num 65 * scale)%js;
     amenitiesBoxWidth := Math_round (num 160 * scale)%js;
     amenitiesBoxHeight := Math_round (num 115 * scale)%js;
     closestBoxWidth := Math_round (num 200 * scale)%js;
     closestBoxHeight := Math_round (num 95 * scale)%js |}.

(** Lines 55 to 57. *)
Definition displayAddress (address : jsstring) : jsstring :=
  if (40 <? length address)%nat
  then substring address 0 (Some 37%nat) ++ lit "..."
  else address.

Definition addressLine1 (address : jsstring) : jsstring :=
  substring (displayAddress address) 0 (Some 30%nat).

Definition addressLine2 (address : jsstring) : jsstring :=
  if (30 <? length (displayAddress address))%nat
  then substring (displayAddress address) 30 None
  else [].

(** Lines 60 to 71. *)
Definition categoryColors : gmap jsstring jsstring :=
  <[lit "restaurant" := lit "#F97316"]>
  (<[lit "grocery" := lit "#92400E"]>
  (<[lit "shopping" := lit "#A855F7"]>
  (<[lit "park" := lit "#22C55E"]> ∅))).

Definition entryName (poi : POI) : jsstring :=
  if (22 <? length (name poi))%nat
  then substring (name poi) 0 (Some 19%nat) ++ lit "..."
  else name poi.

Definition entryColor (poi : POI) : jsstring :=
  ToString (or_else (get categoryColors (category poi)) (lit "#666666")).

(** An attribute value between double quotes. *)
Definition q (s : jsstring) : jsstring := dq ++ s ++ dq.

Definition closestEntry (poi : POI) : jsstring :=
  lit "<tspan fill=" ++ q (entryColor poi) ++ lit ">" ++ bullet ++ lit "</tspan> " ++
  entryName poi ++ lit " (" ++ toFixed (distance poi) 1 ++ lit "mi)".

(** [closestPOIs.slice(0, 4).map(...)]. *)
Definition closestEntries (closestPOIs : list POI) : list jsstring :=
  closestEntry <$> take 4 closestPOIs.

Definition brandColor : jsstring := lit "#1E40AF".

(** The literal [0.85] is the Number nearest to 85/100. *)
Definition num_0_85 : number := (num 85 / num 100)%js.

(** The template of lines 75 to 151, cut at its blank lines; line breaks
    and indentation are those of the source. *)

Definition header (width height : number) : jsstring :=
  lit "<svg width=" ++ q (NumberToString width) ++ lit " height=" ++ q (NumberToString height) ++
      lit " xmlns=" ++ q (lit "http://www.w3.org/2000/svg") ++ lit ">" ++ nl.

Definition styleBlock : jsstring :=
  lit "  <style>" ++ nl ++
  lit "    .box { fill: rgba(255, 255, 255, 0.92); filter: drop-shadow(0 1px 3px rgba(0,0,0,0.15)); }" ++
      nl ++
  lit "    .title { font-family: Arial, Helvetica, sans-serif; font-weight: bold; fill: #11181C; }" ++
      nl ++
  lit "    .text { font-family: Arial, Helvetica, sans-serif; fill: #11181C; }" ++ nl ++
  lit "    .muted { font-family: Arial, Helvetica, sans-serif; fill: #687076; }" ++ nl ++
  lit "  </style>" ++ nl ++
  nl.

(** Lines 84 to 87: the comment, the group and the rectangle of the
    address box. *)
Definition addressFrame (L : Layout) : jsstring :=
  lit "  <!-- Address Box - Top Left -->" ++ nl ++
  lit "  <g>" ++ nl ++
  lit "    <rect x=" ++ q (NumberToString (padding L)) ++ lit " y=" ++
      q (NumberToString (padding L)) ++ lit " width=" ++
      q (NumberToString (addressBoxWidth L)) ++ lit " height=" ++
      q (NumberToString (addressBoxHeight L)) ++ lit " " ++ nl ++
  lit "          class=" ++ q (lit "box") ++ lit " rx=" ++ q (NumberToString (borderRadius L)) ++
      lit " stroke=" ++ q (lit "#E5E7EB") ++ lit " stroke-width=" ++ q (lit "1") ++ lit "/>" ++
      nl.

(** Lines 88 and 89: the text element of the first address line. *)
Definition addressLine1Text (L : Layout) (address : jsstring) : jsstring :=
  lit "    <text x=" ++ q (NumberToString (padding L + boxPadding L)%js) ++ lit " y=" ++
      q (NumberToString (padding L + boxPadding L + titleFontSize L)%js) ++ lit " " ++ nl ++
  lit "          class=" ++ q (lit "title") ++ lit " font-size=" ++
      q (NumberToString (titleFontSize L)) ++ lit ">" ++ addressLine1 address ++ lit "</text>" ++
      nl.

(** Lines 90 and 91: the text element of the second address line. *)
Definition addressLine2Text (L : Layout) (address : jsstring) : jsstring :=
  lit "<text x=" ++ q (NumberToString (padding L + boxPadding L)%js) ++ lit " y=" ++
      q (NumberToString (padding L + boxPadding L + titleFontSize L + lineHeight L * num_0_85)%js) ++
      lit " " ++ nl ++
  lit "          class=" ++ q (lit "title") ++ lit " font-size=" ++
      q (NumberToString (titleFontSize L)) ++ lit ">" ++ addressLine2 address ++ lit "</text>".

(** Line 93: the content of the radius line. *)
Definition radiusLabel (radiusMiles : number) : jsstring :=
  NumberToString radiusMiles ++ lit " mile" ++
  (if strict_neq radiusMiles (num 1) then lit "s" else []) ++ lit " radius".

(** Lines 92 and 93: the text element of the radius line. *)
Definition radiusText (L : Layout) (radiusMiles : number) : jsstring :=
  lit "    <text x=" ++ q (NumberToString (padding L + boxPadding L)%js) ++ lit " y=" ++
      q (NumberToString (padding L + addressBoxHeight L - boxPadding L - num 2)%js) ++ lit " " ++
      nl ++
  lit "          class=" ++ q (lit "muted") ++ lit " font-size=" ++
      q (NumberToString (smallFontSize L)) ++ lit ">" ++ radiusLabel radiusMiles ++
      lit "</text>" ++ nl.

(** Lines 84 to 95. *)
Definition addressBox (L : Layout) (address : jsstring) (radiusMiles : number) : jsstring :=
  addressFrame L ++ addressLine1Text L address ++
  lit "    " ++
      (if truthy_string (addressLine2 address) then addressLine2Text L address else []) ++ nl ++
  radiusText L radiusMiles ++
  lit "  </g>" ++ nl ++
  nl.

(** Lines 96 to 102: the comment, the group, the rectangle and the title
    of the amenities box. *)
Definition amenitiesFrame (L : Layout) (width : number) : jsstring :=
  lit "  <!-- Nearby Amenities Box - Top Right -->" ++ nl ++
  lit "  <g>" ++ nl ++
  lit "    <rect x=" ++ q (NumberToString (width - amenitiesBoxWidth L - padding L)%js) ++
      lit " y=" ++ q (NumberToString (padding L)) ++ lit " " ++ nl ++
  lit "          width=" ++ q (NumberToString (amenitiesBoxWidth L)) ++ lit " height=" ++
      q (NumberToString (amenitiesBoxHeight L)) ++ lit " " ++ nl ++
  lit "          class=" ++ q (lit "box") ++ lit " rx=" ++ q (NumberToString (borderRadius L)) ++
      lit " stroke=" ++ q (lit "#E5E7EB") ++ lit " stroke-width=" ++ q (lit "1") ++ lit "/>" ++
      nl ++
  lit "    <text x=" ++
      q (NumberToString (width - amenitiesBoxWidth L - padding L + boxPadding L)%js) ++
      lit " y=" ++ q (NumberToString (padding L + boxPadding L + titleFontSize L)%js) ++
      lit " " ++ nl ++
  lit "          class=" ++ q (lit "title") ++ lit " font-size=" ++
      q (NumberToString (titleFontSize L)) ++ lit ">Nearby Amenities</text>" ++ nl.

(** One legend entry: a blank line, the dot and the label. The source
    writes this text five times (lines 103-108, 109-114, 115-120, 121-126
    and 127-132), changing the vertical offset ([lineHeight], then
    [lineHeight * 2] to [lineHeight * 5]), the fill and the label. *)
Definition legendEntry (L : Layout) (width rowOffset : number) (color label : jsstring)
  : jsstring :=
  lit "    " ++ nl ++
  lit "    <circle cx=" ++
      q (NumberToString (width - amenitiesBoxWidth L - padding L + boxPadding L + dotSize L / num 2)%js) ++
      lit " " ++ nl ++
  lit "            cy=" ++
      q (NumberToString (padding L + boxPadding L + titleFontSize L + rowOffset + dotSize L / num 4)%js) ++
      lit " r=" ++ q (NumberToString (dotSize L / num 2)%js) ++ lit " fill=" ++ q (color) ++
      lit "/>" ++ nl ++
  lit "    <text x=" ++
      q (NumberToString (width - amenitiesBoxWidth L - padding L + boxPadding L + dotSize L + num 6)%js) ++
      lit " " ++ nl ++
  lit "          y=" ++
      q (NumberToString (padding L + boxPadding L + titleFontSize L + rowOffset + dotSize L / num 2)%js) ++
      lit " " ++ nl ++
  lit "          class=" ++ q (lit "text") ++ lit " font-size=" ++
      q (NumberToString (textFontSize L)) ++ lit ">" ++ label ++ lit "</text>" ++ nl.

(** Lines 96 to 134. *)
Definition amenitiesBox (L : Layout) (stats : Stats) (width : number) : jsstring :=
  amenitiesFrame L width ++
  legendEntry L width (lineHeight L) brandColor (lit "Your Listing") ++
  legendEntry L width (lineHeight L * num 2)%js (lit "#F97316")
    (lit "Restaurants: " ++ NumberToString (restaurants stats)) ++
  legendEntry L width (lineHeight L * num 3)%js (lit "#92400E")
    (lit "Grocery: " ++ NumberToString (grocery stats)) ++
  legendEntry L width (lineHeight L * num 4)%js (lit "#A855F7")
    (lit "Shopping: " ++ NumberToString (shopping stats)) ++
  legendEntry L width (lineHeight L * num 5)%js (lit "#22C55E")
    (lit "Parks: " ++ NumberToString (parks stats)) ++
  lit "  </g>" ++ nl ++
  nl.

(** Lines 143 to 147: the text element of entry [i]. *)
Definition closestEntryText (L : Layout) (height : number) (i : number) (entry : jsstring)
  : jsstring :=
  nl ++
  lit "    <text x=" ++ q (NumberToString (padding L + boxPadding L)%js) ++ lit " " ++ nl ++
  lit "          y=" ++
      q (NumberToString (height - closestBoxHeight L - padding L + boxPadding L + titleFontSize L + lineHeight L * (i + num 1))%js) ++
      lit " " ++ nl ++
  lit "          class=" ++ q (lit "text") ++ lit " font-size=" ++
      q (NumberToString (smallFontSize L)) ++ lit ">" ++ entry ++ lit "</text>" ++ nl ++
  lit "    ".

(** Lines 137 to 142: the group, the rectangle and the title of the
    closest-locations box. *)
Definition closestFrame (L : Layout) (height : number) : jsstring :=
  lit "  <g>" ++ nl ++
  lit "    <rect x=" ++ q (NumberToString (padding L)) ++ lit " y=" ++
      q (NumberToString (height - closestBoxHeight L - padding L)%js) ++ lit " " ++ nl ++
  lit "          width=" ++ q (NumberToString (closestBoxWidth L)) ++ lit " height=" ++
      q (NumberToString (closestBoxHeight L)) ++ lit " " ++ nl ++
  lit "          class=" ++ q (lit "box") ++ lit " rx=" ++ q (NumberToString (borderRadius L)) ++
      lit " stroke=" ++ q (lit "#E5E7EB") ++ lit " stroke-width=" ++ q (lit "1") ++ lit "/>" ++
      nl ++
  lit "    <text x=" ++ q (NumberToString (padding L + boxPadding L)%js) ++ lit " y=" ++
      q (NumberToString (height - closestBoxHeight L - padding L + boxPadding L + titleFontSize L)%js) ++
      lit " " ++ nl ++
  lit "          class=" ++ q (lit "title") ++ lit " font-size=" ++
      q (NumberToString (titleFontSize L)) ++ lit ">Closest Locations</text>" ++ nl.

(** Lines 136 to 149: the text emitted when there is an entry. *)
Definition closestBox (L : Layout) (height : number) (closestEntries : list jsstring)
  : jsstring :=
  nl ++ closestFrame L height ++
  lit "    " ++
      concat (imap (λ i entry, closestEntryText L height (num (Z.of_nat i)) entry) closestEntries) ++
      nl ++
  lit "  </g>" ++ nl ++
  lit "  ".

(** Lines 135 to 149. *)
Definition closestSection (L : Layout) (height : number) (closestEntries : list jsstring)
  : jsstring :=
  lit "  <!-- Closest Locations Box - Bottom Left -->" ++ nl ++
  lit "  " ++
      (if (0 <? length closestEntries)%nat then closestBox L height closestEntries else []) ++
      nl.

Definition generateOverlaySVG (address : jsstring) (radiusMiles : number) (stats : Stats)
    (closestPOIs : list POI) (width height : number) : jsstring :=
  let L := layout width height in
  trim (nl ++ header width height ++ styleBlock ++ addressBox L address radiusMiles ++
        amenitiesBox L stats width ++ closestSection L height (closestEntries closestPOIs) ++
        lit "</svg>" ++ nl ++ lit "  ").

(** ** composeMapImage *)

(** A thrown value: an error object with its name and message. *)
Record exn := { ename : jsstring; message : jsstring }.

Definition new_Error (msg : jsstring) : exn := {| ename := lit "Error"; message := msg |}.

(** The outcome of an awaited call: a value, or a thrown error. *)
Inductive result (A : Type) :=
  | Ok (a : A)
  | Throw (e : exn).
Arguments Ok {A} a.
Arguments Throw {A} e.

#[export] Instance result_ret : MRet result := λ A a, Ok a.
#[export] Instance result_bind : MBind result := λ A B f r,
  match r with
  | Ok a => f a
  | Throw e => Throw e
  end.

(** What [fetch] resolves to; [arrayBuffer] may itself reject. *)
Record Response (Buffer : Type) := {
  ok : bool;
  status : number;
  arrayBuffer : result Buffer
}.
Arguments ok {Buffer} r.
Arguments status {Buffer} r.
Arguments arrayBuffer {Buffer} r.

(** What [sharp(buffer).metadata()] resolves to: either dimension may be
    undefined. *)
Record Metadata := {
  meta_width : option number;
  meta_height : option number
}.

(** One element of the array given to [composite]; [input] is the SVG text
    held by [Buffer.from(overlaySvg)]. *)
Record OverlayOptions := {
  input : jsstring;
  top : number;
  left : number
}.

(** The collaborators of the compositor: the network ([fetch]) and the
    image library ([sharp]). [sharp_composite_png b ovs] is
    [sharp(b).composite(ovs).png().toBuffer()], and [toBase64 b] is
    [b.toString("base64")]. *)
Class Host := {
  Buffer : Type;
  fetch : jsstring -> result (Response Buffer);
  sharp_metadata : Buffer -> result Metadata;
  sharp_composite_png : Buffer -> list OverlayOptions -> result Buffer;
  toBase64 : Buffer -> jsstring
}.

(** [dimension || fallback] on a possibly undefined Number. *)
Definition or_default (dimension : option number) (fallback : number) : number :=
  match dimension with
  | Some x => if truthy_number x then x else fallback
  | None => fallback
  end.

Definition composeMapImage `{Host} (inp : CompositeMapInput) : result jsstring :=
  response ← fetch (mapUrl inp);
  if negb (ok response)
  then Throw (new_Error (lit "Failed to fetch map image: " ++ NumberToString (status response)))
  else
    mapBuffer ← arrayBuffer response;
    metadata ← sharp_metadata mapBuffer;
    let width := or_default (meta_width metadata) (num 1280) in
    let height := or_default (meta_height metadata) (num 960) in
    let overlaySvg :=
      generateOverlaySVG (address inp) (radius inp) (stats inp) (closestPOIs inp)
                         width height in
    composited ← sharp_composite_png mapBuffer
                   [ {| input := overlaySvg; top := num 0; left := num 0 |} ];
    mret (toBase64 composited).

End ImageComposer.

(** * The router (router.ts) *)

Module Router.
Import JS ImageComposer.

(** [process.env.NAME || ""]. *)
Definition env_or_empty (env : gmap jsstring jsstring) (name : jsstring) : jsstring :=
  match env !! name with
  | Some v => if truthy_string v then v else []
  | None => []
  end.

Definition GOOGLE_PLACES_API_KEY (env : gmap jsstring jsstring) : jsstring :=
  env_or_empty env (lit "GOOGLE_PLACES_API_KEY").

Definition MAPBOX_ACCESS_TOKEN (env : gmap jsstring jsstring) : jsstring :=
  env_or_empty env (lit "MAPBOX_ACCESS_TOKEN").

Record ApiKeys := {
  googlePlacesConfigured : bool;
  mapboxConfigured : bool;
  googlePlacesKey : jsstring;
  mapboxToken : jsstring
}.

(** [config.getApiKeys]. *)
Definition getApiKeys (env : gmap jsstring jsstring) : ApiKeys :=
  {| googlePlacesConfigured := truthy_string (GOOGLE_PLACES_API_KEY env);
     mapboxConfigured := truthy_string (MAPBOX_ACCESS_TOKEN env);
     googlePlacesKey := GOOGLE_PLACES_API_KEY env;
     mapboxToken := MAPBOX_ACCESS_TOKEN env |}.

Record CompositeMapOutput := { imageBase64 : jsstring }.

(** One call of [console.error(label, error)]. *)
Record console_entry := { label : jsstring; logged : exn }.

(** [config.compositeMap]: the response to the caller, and the console
    after the call. *)
Definition compositeMap `{Host} (inp : CompositeMapInput) (console : list console_entry)
  : result CompositeMapOutput * list console_entry :=
  match composeMapImage inp with
  | Ok composedImageBase64 => (Ok {| imageBase64 := composedImageBase64 |}, console)
  | Throw error =>
      (Throw (new_Error (lit "Failed to compose map image")),
       console ++ [ {| label := lit "Image composition error:"; logged := error |} ])
  end.

End Router.

(** * Sample collaborators and inputs

    A small image library in which a buffer is either undecodable bytes or
    an image of a known pixel size, together with what [metadata()] reports
    for it; and networks that serve one response for every URL. *)

Module Samples.
Import JS ImageComposer Router.

Record sample_buffer := {
  pixels : option (Z * Z);
  reported : Metadata
}.

Definition in_range (w h : Z) : bool :=
  (0 <? w) && (w <? 2 ^ 31) && (0 <? h) && (h <? 2 ^ 31).

Definition sample_size (b : sample_buffer) : option (Z * Z) :=
  match pixels b with
  | Some (w, h) => if in_range w h then Some (w, h) else None
  | None => None
  end.

Definition number_eqb (x y : number) : bool :=
  match x, y with
  | S754_zero a, S754_zero b | S754_infinity a, S754_infinity b => Bool.eqb a b
  | S754_nan, S754_nan => true
  | S754_finite a m e, S754_finite b m' e' => Bool.eqb a b && Pos.eqb m m' && Z.eqb e e'
  | _, _ => false
  end.

(** The sample image library reads the size that an SVG overlay declares
    in a root element that opens with [<svg width="W" height="H"]. *)

Fixpoint read_digits (s : jsstring) (acc : Z) : Z * jsstring :=
  match s with
  | c :: r => if is_digit c then read_digits r (10 * acc + (Z.of_N c - 48)) else (acc, s)
  | [] => (acc, [])
  end.

Definition read_number (s : jsstring) : option (Z * jsstring) :=
  match s with
  | c :: _ => if is_digit c then Some (read_digits s 0) else None
  | [] => None
  end.

Fixpoint after_prefix (p s : jsstring) : option jsstring :=
  match p, s with
  | [], _ => Some s
  | a :: p', b :: s' => if (a =? b)%N then after_prefix p' s' else None
  | _ :: _, [] => None
  end.

Definition svg_size (svg : jsstring) : option (Z * Z) :=
  s ← after_prefix (lit "<svg width=" ++ dq) svg;
  '(w, s) ← read_number s;
  s ← after_prefix (dq ++ lit " height=" ++ dq) s;
  '(h, s) ← read_number s;
  _ ← after_prefix dq s;
  Some (w, h).

Definition fitsb (w h : Z) (ov : OverlayOptions) : bool :=
  match svg_size (input ov) with
  | Some (ow, oh) =>
      number_eqb (top ov) (num 0) && number_eqb (left ov) (num 0) && (ow <=? w) && (oh <=? h)
  | None => false
  end.

Definition sample_metadata (b : sample_buffer) : result Metadata :=
  match sample_size b with
  | Some _ => Ok (reported b)
  | None => Throw (new_Error (lit "Input buffer contains unsupported image format"))
  end.

Definition sample_composite (b : sample_buffer) (ovs : list OverlayOptions)
  : result sample_buffer :=
  match sample_size b with
  | Some (w, h) =>
      if forallb (fitsb w h) ovs then Ok b
      else Throw (new_Error (lit "Image to composite must have same dimensions or smaller"))
  | None => Throw (new_Error (lit "Input buffer contains unsupported image format"))
  end.

Definition sample_base64 (b : sample_buffer) : jsstring :=
  match pixels b with
  | Some (w, h) => lit "png:" ++ decimal w ++ lit "x" ++ decimal h
  | None => lit "raw"
  end.

(** The host whose network answers every URL with [r]. *)
Definition serving (r : result (Response sample_buffer)) : Host :=
  {| Buffer := sample_buffer;
     fetch := λ _, r;
     sharp_metadata := sample_metadata;
     sharp_composite_png := sample_composite;
     toBase64 := sample_base64 |}.

(** An image of [w] by [h] pixels whose metadata reports its size. *)
Definition picture (w h : Z) : sample_buffer :=
  {| pixels := Some (w, h);
     reported := {| meta_width := Some (num w); meta_height := Some (num h) |} |}.


Definition garbage : sample_buffer :=
  {| pixels := None; reported := {| meta_width := None; meta_height := None |} |}.

Definition success (b : sample_buffer) : result (Response sample_buffer) :=
  Ok {| ok := true; status := num 200; arrayBuffer := Ok b |}.

Definition not_found : result (Response sample_buffer) :=
  Ok {| ok := false; status := num 404; arrayBuffer := Ok garbage |}.

Definition unreachable : result (Response sample_buffer) :=
  Throw {| ename := lit "TypeError"; message := lit "fetch failed" |}.

Definition zero_stats : Stats :=
  {| restaurants := num 0; grocery := num 0; shopping := num 0; parks := num 0 |}.

Definition cafe : POI :=
  {| name := lit "Blue Bottle"; category := lit "cafe"; distance := (num 3 / num 10)%js |}.

Definition diner : POI :=
  {| name := lit "Corner Diner"; category := lit "restaurants"; distance := num 1 |}.

Definition far_away : POI :=
  {| name := lit "Proxima"; category := lit "park"; distance := num (10 ^ 21) |}.

Definition request : CompositeMapInput :=
  {| mapUrl := lit "https://api.mapbox.com/styles/v1/mapbox/streets-v12/static/0,0,1/640x480@2x";
     address := lit "350 Fifth Avenue, New York, NY 10118";
     radius := num 1;
     stats := zero_stats;
     closestPOIs := [cafe; diner] |}.

End Samples.

(** * The other procedures of the router (router.ts)

    [getAddressSuggestions], [geocodeAddress], [searchNearbyPOIs] and
    [generateMapUrl]. The three that call Google read the parsed response
    body as untyped data ([any]); the body is modelled as a JSON value and
    every property read follows the language: reading a property of
    [undefined] or [null] throws, reading a missing property gives
    [undefined]. *)

Module Procedures.
Import JS ImageComposer Router.

#[local] Set Warnings "-register-all".

Inductive json :=
  | JUndefined
  | JNull
  | JBool (b : bool)
  | JNumber (x : number)
  | JString (s : jsstring)
  | JArray (items : list json)
  | JObject (fields : list (jsstring * json)).

(** The property names the procedures read. None of them is a property
    that strings, arrays or objects inherit, apart from [length] and the
    index [0], which strings and arrays define themselves. *)
Inductive prop :=
  | P_predictions | P_place_id | P_description | P_status | P_results
  | P_length | P_0 | P_geometry | P_location | P_lat | P_lng
  | P_name | P_vicinity | P_rating | P_types.

Definition prop_name (p : prop) : jsstring :=
  match p with
  | P_predictions => lit "predictions"
  | P_place_id => lit "place_id"
  | P_description => lit "description"
  | P_status => lit "status"
  | P_results => lit "results"
  | P_length => lit "length"
  | P_0 => lit "0"
  | P_geometry => lit "geometry"
  | P_location => lit "location"
  | P_lat => lit "lat"
  | P_lng => lit "lng"
  | P_name => lit "name"
  | P_vicinity => lit "vicinity"
  | P_rating => lit "rating"
  | P_types => lit "types"
  end.

(** The own property [key] of a parsed object. *)
Fixpoint own (key : jsstring) (fields : list (jsstring * json)) : option json :=
  match fields with
  | [] => None
  | (k, v) :: rest => if bool_decide (k = key) then Some v else own key rest
  end.

(** A request of [axios.get(url, { params })]. *)
Record Request := {
  url : jsstring;
  params : list (jsstring * json)
}.

(** What the procedures take from their platform: the errors the engine
    throws (their messages are the engine's), the text a template literal
    gives a JSON value, and the upstream service ([axios.get] resolves to a
    response whose [data] is the parsed body, or rejects). *)
Class Platform := {
  cannot_read : json -> jsstring -> exn;
  not_a_function : jsstring -> exn;
  to_text : json -> result jsstring;
  axios_get : Request -> result json
}.

(** What a call leaves behind: the requests sent and the console. *)
Record World := {
  sent : list Request;
  console : list console_entry
}.

Section WithPlatform.
Context `{Platform}.

(** [value.p]. *)
Definition read (value : json) (p : prop) : result json :=
  match value with
  | JUndefined | JNull => Throw (cannot_read value (prop_name p))
  | JBool _ | JNumber _ => Ok JUndefined
  | JString s =>
      match p with
      | P_length => Ok (JNumber (num (Z.of_nat (length s))))
      | P_0 => Ok (match s with c :: _ => JString [c] | [] => JUndefined end)
      | _ => Ok JUndefined
      end
  | JArray items =>
      match p with
      | P_length => Ok (JNumber (num (Z.of_nat (length items))))
      | P_0 => Ok (default JUndefined (head items))
      | _ => Ok JUndefined
      end
  | JObject fields => Ok (default JUndefined (own (prop_name p) fields))
  end.

(** [value.map(f)]: only arrays have the method. *)
Definition call_map {A} (value : json) (f : json -> result A) : result (list A) :=
  match value with
  | JArray items => mapM f items
  | JUndefined | JNull => Throw (cannot_read value (lit "map"))
  | _ => Throw (not_a_function (lit "map"))
  end.

Definition truthy_json (value : json) : bool :=
  match value with
  | JUndefined | JNull => false
  | JBool b => b
  | JNumber x => truthy_number x
  | JString s => truthy_string s
  | JArray _ | JObject _ => true
  end.

(** [value !== "text"]. *)
Definition differs_from (value : json) (text : jsstring) : bool :=
  match value with
  | JString s => negb (bool_decide (s = text))
  | _ => true
  end.

(** [await axios.get(url, { params })]. *)
Definition get (request : Request) (w : World) : result json * World :=
  (axios_get request, {| sent := sent w ++ [request]; console := console w |}).

Definition error (text : jsstring) (err : exn) (w : World) : World :=
  {| sent := sent w; console := console w ++ [ {| label := text; logged := err |} ] |}.

(** ** getAddressSuggestions *)

Record Suggestion := {
  placeId : json;
  description : json
}.

Definition getAddressSuggestions (env : gmap jsstring jsstring) (input : jsstring)
    (w : World) : list Suggestion * World :=
  if negb (truthy_string (GOOGLE_PLACES_API_KEY env)) || (length input <? 3)%nat
  then ([], w)
  else
    let '(response, w) :=
      get {| url := lit "https://maps.googleapis.com/maps/api/place/autocomplete/json";
             params := [ (lit "input", JString input);
                         (lit "types", JString (lit "address"));
                         (lit "key", JString (GOOGLE_PLACES_API_KEY env)) ] |} w in
    match
      data ← response;
      predictions ← read data P_predictions;
      call_map predictions (λ p,
        place_id ← read p P_place_id;
        description ← read p P_description;
        mret {| placeId := place_id; description := description |})
    with
    | Ok suggestions => (suggestions, w)
    | Throw err => ([], error (lit "Autocomplete error:") err w)
    end.

(** ** geocodeAddress *)

Record Coordinates := {
  lat : json;
  lng : json
}.

Definition geocodeAddress (env : gmap jsstring jsstring) (address : jsstring) (w : World)
  : result Coordinates * World :=
  if negb (truthy_string (GOOGLE_PLACES_API_KEY env))
  then (Throw (new_Error (lit "Google Places API key not configured")), w)
  else
    let '(response, w) :=
      get {| url := lit "https://maps.googleapis.com/maps/api/geocode/json";
             params := [ (lit "address", JString address);
                         (lit "key", JString (GOOGLE_PLACES_API_KEY env)) ] |} w in
    (data ← response;
     status ← read data P_status;
     failed ← (if differs_from status (lit "OK") then mret true
               else results ← read data P_results;
                    count ← read results P_length;
                    mret (negb (truthy_json count)));
     if failed : bool
     then status ← read data P_status;
          text ← to_text status;
          Throw (new_Error (lit "Geocoding failed: " ++ text))
     else results ← read data P_results;
          first ← read results P_0;
          geometry ← read first P_geometry;
          location ← read geometry P_location;
          latitude ← read location P_lat;
          longitude ← read location P_lng;
          mret {| lat := latitude; lng := longitude |},
     w).

(** ** searchNearbyPOIs *)

Record NearbyInput := {
  near_lat : number;
  near_lng : number;
  near_radius : number;
  near_type : jsstring
}.

Record Place := {
  place_name : json;
  place_lat : json;
  place_lng : json;
  place_vicinity : json;
  place_rating : json;
  place_types : json
}.

Definition toPlace (place : json) : result Place :=
  name ← read place P_name;
  geometry ← read place P_geometry;
  location ← read geometry P_location;
  latitude ← read location P_lat;
  geometry' ← read place P_geometry;
  location' ← read geometry' P_location;
  longitude ← read location' P_lng;
  vicinity ← read place P_vicinity;
  rating ← read place P_rating;
  types ← read place P_types;
  mret {| place_name := name; place_lat := latitude; place_lng := longitude;
          place_vicinity := vicinity; place_rating := rating; place_types := types |}.

Definition searchNearbyPOIs (env : gmap jsstring jsstring) (inp : NearbyInput) (w : World)
  : result (list Place) * World :=
  if negb (truthy_string (GOOGLE_PLACES_API_KEY env))
  then (Throw (new_Error (lit "Google Places API key not configured")), w)
  else
    let '(response, w) :=
      get {| url := lit "https://maps.googleapis.com/maps/api/place/nearbysearch/json";
             params := [ (lit "location",
                          JString (NumberToString (near_lat inp) ++ lit "," ++
                                   NumberToString (near_lng inp)));
                         (lit "radius", JNumber (near_radius inp));
                         (lit "type", JString (near_type inp));
                         (lit "key", JString (GOOGLE_PLACES_API_KEY env)) ] |} w in
    (data ← response;
     results ← read data P_results;
     call_map results toPlace,
     w).

End WithPlatform.

(** ** generateMapUrl *)

Record Marker := {
  marker_lat : number;
  marker_lng : number;
  marker_color : jsstring;
  marker_label : option jsstring
}.

Record MapInput := {
  map_lat : number;
  map_lng : number;
  map_zoom : number;
  map_width : number;
  map_height : number;
  map_markers : list Marker
}.

(** [text.replace("#", "")]: the first number sign is removed. *)
Fixpoint remove_first_hash (text : jsstring) : jsstring :=
  match text with
  | [] => []
  | c :: rest => if (c =? 35)%N then rest else c :: remove_first_hash rest
  end.

(** [m.label || ""]. *)
Definition label_or_empty (m : Marker) : jsstring :=
  match marker_label m with
  | Some l => if truthy_string l then l else []
  | None => []
  end.

Definition markerOverlay (m : Marker) : jsstring :=
  let pinSize :=
    match marker_label m with
    | Some l => if bool_decide (l = lit "home") then lit "l" else lit "m"
    | None => lit "m"
    end in
  let label := label_or_empty m in
  lit "pin-" ++ pinSize ++ lit "-" ++ label ++ lit "+" ++
  remove_first_hash (marker_color m) ++ lit "(" ++ NumberToString (marker_lng m) ++
  lit "," ++ NumberToString (marker_lat m) ++ lit ")".

(** [texts.join(",")]. *)
Fixpoint join_comma (texts : list jsstring) : jsstring :=
  match texts with
  | [] => []
  | [t] => t
  | t :: rest => t ++ lit "," ++ join_comma rest
  end.

Definition markerOverlays (markers : list Marker) : jsstring :=
  join_comma (markerOverlay <$> take 100 markers).

Definition generateMapUrl (env : gmap jsstring jsstring) (inp : MapInput) : result jsstring :=
  if negb (truthy_string (MAPBOX_ACCESS_TOKEN env))
  then Throw (new_Error (lit "Mapbox access token not configured"))
  else
    Ok (lit "https://api.mapbox.com/styles/v1/mapbox/streets-v12/static/" ++
        markerOverlays (map_markers inp) ++ lit "/" ++
        NumberToString (map_lng inp) ++ lit "," ++ NumberToString (map_lat inp) ++ lit "," ++
        NumberToString (map_zoom inp) ++ lit "/" ++
        NumberToString (map_width inp) ++ lit "x" ++ NumberToString (map_height inp) ++
        lit "@2x?access_token=" ++ MAPBOX_ACCESS_TOKEN env).

(** ** A sample platform

    An engine with V8's messages, and an upstream that answers every
    request with [answer]. *)

Definition sample_cannot_read (value : json) (key : jsstring) : exn :=
  {| ename := lit "TypeError";
     message := lit "Cannot read properties of " ++
                (match value with JNull => lit "null" | _ => lit "undefined" end) ++
                lit " (reading '" ++ key ++ lit "')" |}.

Definition sample_not_a_function (key : jsstring) : exn :=
  {| ename := lit "TypeError"; message := key ++ lit " is not a function" |}.

Definition sample_to_text (value : json) : result jsstring :=
  match value with
  | JUndefined => Ok (lit "undefined")
  | JNull => Ok (lit "null")
  | JBool b => Ok (if b then lit "true" else lit "false")
  | JNumber x => Ok (NumberToString x)
  | JString s => Ok s
  | JArray [] => Ok []
  | JArray _ => Throw (new_Error (lit "not rendered by the sample platform"))
  | JObject _ => Ok (lit "[object Object]")
  end.

Definition answering (answer : result json) : Platform :=
  {| cannot_read := sample_cannot_read;
     not_a_function := sample_not_a_function;
     to_text := sample_to_text;
     axios_get := λ _, answer |}.

Definition configured : gmap jsstring jsstring :=
  <[lit "GOOGLE_PLACES_API_KEY" := lit "g-key"]>
  (<[lit "MAPBOX_ACCESS_TOKEN" := lit "pk.token"]> ∅).

Definition quiet : World := {| sent := []; console := [] |}.

Definition home_marker : Marker :=
  {| marker_lat := num 40; marker_lng := num (-74);
     marker_color := lit "#1E40AF"; marker_label := Some (lit "home") |}.

Definition map_request : MapInput :=
  {| map_lat := num 40; map_lng := num (-74); map_zoom := num 14;
     map_width := num 640; map_height := num 480; map_markers := [home_marker] |}.

End Procedures.

(** * Properties *)

Import JS ImageComposer Router.

(** ** Strings *)

Section Substring.
Context (s : jsstring).

Lemma substring_prefix (n : nat) : substring s 0 (Some n) = take n s.
Proof.
  unfold substring. rewrite !Nat.min_0_l, Nat.max_0_l, Nat.sub_0_r.
  change (drop 0 s) with s.
  destruct (decide (n ≤ length s)%nat).
  - by rewrite Nat.min_l.
  - rewrite Nat.min_r by lia. rewrite !take_ge; [done | lia | lia].
Qed.

Lemma substring_suffix (n : nat) : substring s n None = drop n s.
Proof.
  unfold substring.
  destruct (decide (n ≤ length s)%nat).
  - rewrite (Nat.min_l n) by lia. rewrite Nat.max_r, Nat.min_l by lia.
    apply take_ge. rewrite length_drop. lia.
  - rewrite (Nat.min_r n) by lia. rewrite Nat.max_id, Nat.min_id, Nat.sub_diag.
    rewrite drop_ge by lia. by rewrite drop_ge by lia.
Qed.

End Substring.

Lemma truthy_string_length (s : jsstring) : truthy_string s = (0 <? length s)%nat.
Proof. by destruct s. Qed.

(** ** The text of the overlay *)

Lemma trim_end_app (s : jsstring) (c : N) (ws : jsstring) :
  is_white_space c = false -> Forall (λ w, is_white_space w = true) ws ->
  trim_end (s ++ c :: ws) = s ++ [c].
Proof.
  intros Hc Hws. unfold trim_end. rewrite reverse_app, reverse_cons.
  assert (Hstrip : ∀ l t, Forall (λ w, is_white_space w = true) l ->
                          trim_start (l ++ c :: t) = c :: t).
  { induction l as [| w l IH]; intros t Hl.
    - simpl. by rewrite Hc.
    - apply Forall_cons in Hl as [Hw Hl]. simpl. rewrite Hw. by apply IH. }
  rewrite <- app_assoc. change ([c] ++ reverse s) with (c :: reverse s).
  rewrite Hstrip by by apply Forall_reverse.
  by rewrite reverse_cons, reverse_involutive.
Qed.

(** The text of the overlay once trimmed: the template without its first
    line break and without the line break and two spaces that follow the
    closing tag. *)
Lemma generateOverlaySVG_text (address : jsstring) (radiusMiles : number) (stats : Stats)
    (closestPOIs : list POI) (width height : number) :
  generateOverlaySVG address radiusMiles stats closestPOIs width height
    = header width height ++ styleBlock ++
      addressBox (layout width height) address radiusMiles ++
      amenitiesBox (layout width height) stats width ++
      closestSection (layout width height) height (closestEntries closestPOIs) ++
      lit "</svg>".
Proof.
  unfold generateOverlaySVG, trim. cbv zeta.
  set (L := layout width height).
  set (body := styleBlock ++ addressBox L address radiusMiles ++
               amenitiesBox L stats width ++
               closestSection L height (closestEntries closestPOIs)).
  assert (Hstart : ∀ rest, trim_start (nl ++ header width height ++ rest)
                           = header width height ++ rest) by reflexivity.
  replace (nl ++ header width height ++ styleBlock ++ addressBox L address radiusMiles ++
           amenitiesBox L stats width ++
           closestSection L height (closestEntries closestPOIs) ++
           lit "</svg>" ++ nl ++ lit "  ")
    with (nl ++ header width height ++
          (body ++ lit "</svg") ++ 62%N :: (nl ++ lit "  "))
    by (unfold body; by rewrite <- !app_assoc).
  rewrite Hstart, app_assoc, trim_end_app.
  - unfold body. by rewrite <- !app_assoc.
  - reflexivity.
  - by repeat constructor.
Qed.

(** ** The address lines *)

Lemma displayAddress_shown (address : jsstring) :
  displayAddress address
    = if decide (length address ≤ 40)%nat then address else take 37 address ++ lit "...".
Proof.
  unfold displayAddress. rewrite substring_prefix.
  destruct (Nat.ltb_spec 40 (length address)); case_decide; try lia; done.
Qed.

Lemma addressLine1_take (address : jsstring) :
  addressLine1 address = take 30 (displayAddress address).
Proof. unfold addressLine1. apply substring_prefix. Qed.

Lemma addressLine2_drop (address : jsstring) :
  addressLine2 address = drop 30 (displayAddress address).
Proof.
  unfold addressLine2. rewrite substring_suffix.
  destruct (Nat.ltb_spec 30 (length (displayAddress address))); [done |].
  by rewrite drop_ge by lia.
Qed.

Lemma addressLine2_truthy (address : jsstring) :
  truthy_string (addressLine2 address) = bool_decide (30 < length (displayAddress address))%nat.
Proof.
  rewrite addressLine2_drop, truthy_string_length, length_drop.
  destruct (Nat.ltb_spec 0 (length (displayAddress address) - 30));
    [rewrite bool_decide_eq_true_2 | rewrite bool_decide_eq_false_2]; (done || lia).
Qed.

(** C5. The displayed address is the address itself when it has at most 40
    code units and its first 37 followed by three dots otherwise. In the
    generated document the frame of the address box is followed by one text
    element holding the first 30 code units of the displayed address, then
    by a second text element holding the rest exactly when the displayed
    address has more than 30 code units (nothing is emitted in its place
    otherwise), then by the radius line. *)
Theorem address_lines (address : jsstring) (radiusMiles : number) (stats : Stats)
    (closestPOIs : list POI) (width height : number) :
  let L := layout width height in
  let shown :=
    if decide (length address ≤ 40)%nat then address else take 37 address ++ lit "..." in
  (length shown ≤ 40)%nat ∧
  shown = take 30 shown ++ drop 30 shown ∧
  (drop 30 shown = [] <-> (length shown ≤ 30)%nat) ∧
  generateOverlaySVG address radiusMiles stats closestPOIs width height
    = header width height ++ styleBlock ++
      (addressFrame L ++
       (lit "    <text x=" ++ q (NumberToString (padding L + boxPadding L)%js) ++ lit " y=" ++
        q (NumberToString (padding L + boxPadding L + titleFontSize L)%js) ++ lit " " ++ nl ++
        lit "          class=" ++ q (lit "title") ++ lit " font-size=" ++
        q (NumberToString (titleFontSize L)) ++ lit ">" ++ take 30 shown ++ lit "</text>" ++
        nl) ++
       lit "    " ++
       (if decide (30 < length shown)%nat
        then lit "<text x=" ++ q (NumberToString (padding L + boxPadding L)%js) ++ lit " y=" ++
             q (NumberToString (padding L + boxPadding L + titleFontSize L
                                + lineHeight L * num_0_85)%js) ++
             lit " " ++ nl ++
             lit "          class=" ++ q (lit "title") ++ lit " font-size=" ++
             q (NumberToString (titleFontSize L)) ++ lit ">" ++ drop 30 shown ++ lit "</text>"
        else []) ++
       nl ++
       radiusText L radiusMiles ++
       lit "  </g>" ++ nl ++
       nl) ++
      amenitiesBox L stats width ++
      closestSection L height (closestEntries closestPOIs) ++
      lit "</svg>".
Proof.
  intros L shown.
  assert (Hshown : displayAddress address = shown) by apply displayAddress_shown.
  assert (Hlen : (length shown ≤ 40)%nat).
  { unfold shown. case_decide; [done |].
    rewrite length_app, length_take. change (length (lit "...")) with 3%nat. lia. }
  split_and!.
  - exact Hlen.
  - by rewrite take_drop.
  - split.
    + intros Hnil. apply (f_equal length) in Hnil. rewrite length_drop in Hnil.
      simpl in Hnil. lia.
    + intros Hshort. by apply drop_ge.
  - rewrite generateOverlaySVG_text. fold L. unfold addressBox, addressLine1Text, addressLine2Text.
    rewrite addressLine2_truthy, addressLine1_take, addressLine2_drop, Hshown.
    destruct (decide (30 < length shown)%nat) as [Hlong | Hshort].
    + by rewrite bool_decide_eq_true_2 by done.
    + by rewrite bool_decide_eq_false_2 by done.
Qed.

(** ** The radius line *)

#[local] Instance number_eq_dec : EqDecision number.
Proof. solve_decision. Defined.

(** [x !== 1] is false for the Number 1 and for nothing else. *)
Lemma strict_neq_one (x : number) : strict_neq x (num 1) = bool_decide (x ≠ num 1).
Proof.
  unfold strict_neq, SFeqb. change (num 1) with (S754_finite false 4503599627370496 (-52)).
  destruct x as [s | s | | s m e]; try (destruct s; reflexivity); try reflexivity.
  destruct s; [reflexivity |]. unfold SFcompare.
  destruct (Z.compare_spec e (-52)) as [-> | He | He];
    try (rewrite bool_decide_eq_true_2; [reflexivity | intros [= ]; lia]).
  rewrite Pos.compare_cont_spec. unfold Pos.switch_Eq.
  destruct (Pos.compare_spec m 4503599627370496) as [-> | Hm | Hm].
  - rewrite bool_decide_eq_false_2; [reflexivity | auto].
  - rewrite bool_decide_eq_true_2; [reflexivity |].
    intros [= ->]. exact (Pos.lt_irrefl _ Hm).
  - rewrite bool_decide_eq_true_2; [reflexivity |].
    intros [= ->]. exact (Pos.lt_irrefl _ Hm).
Qed.

Lemma radiusLabel_unit (radiusMiles : number) :
  radiusLabel radiusMiles
    = NumberToString radiusMiles ++
      (if decide (radiusMiles = num 1) then lit " mile radius" else lit " miles radius").
Proof.
  unfold radiusLabel. rewrite strict_neq_one.
  destruct (decide (radiusMiles = num 1)) as [-> | Hne].
  - by rewrite bool_decide_eq_false_2 by auto.
  - by rewrite bool_decide_eq_true_2 by done.
Qed.

(** C6. In the generated document the last text element of the address
    box reads "<radius> mile radius" when the radius is the Number 1 and
    "<radius> miles radius" for every other Number; the radius is printed as
    JavaScript prints a Number, so that 1, 0, 2.5 and 2 give
    "1 mile radius", "0 miles radius", "2.5 miles radius" and
    "2 miles radius". *)
Theorem radius_unit (address : jsstring) (radiusMiles : number) (stats : Stats)
    (closestPOIs : list POI) (width height : number) :
  let L := layout width height in
  generateOverlaySVG address radiusMiles stats closestPOIs width height
    = header width height ++ styleBlock ++
      (addressFrame L ++ addressLine1Text L address ++
       lit "    " ++
       (if truthy_string (addressLine2 address) then addressLine2Text L address else []) ++
       nl ++
       (lit "    <text x=" ++ q (NumberToString (padding L + boxPadding L)%js) ++ lit " y=" ++
        q (NumberToString (padding L + addressBoxHeight L - boxPadding L - num 2)%js) ++
        lit " " ++ nl ++
        lit "          class=" ++ q (lit "muted") ++ lit " font-size=" ++
        q (NumberToString (smallFontSize L)) ++ lit ">" ++
        (NumberToString radiusMiles ++
         (if decide (radiusMiles = num 1) then lit " mile radius" else lit " miles radius")) ++
        lit "</text>" ++ nl) ++
       lit "  </g>" ++ nl ++
       nl) ++
      amenitiesBox L stats width ++
      closestSection L height (closestEntries closestPOIs) ++
      lit "</svg>" ∧
  NumberToString (num 1) = lit "1" ∧
  NumberToString (num 0) = lit "0" ∧
  NumberToString (num 5 / num 2)%js = lit "2.5" ∧
  NumberToString (num 2) = lit "2" ∧
  num 0 ≠ num 1 ∧ (num 5 / num 2)%js ≠ num 1 ∧ num 2 ≠ num 1.
Proof.
  intros L. split_and!.
  - rewrite generateOverlaySVG_text. fold L. unfold addressBox, radiusText.
    by rewrite radiusLabel_unit.
  - by vm_compute.
  - by vm_compute.
  - by vm_compute.
  - by vm_compute.
  - by vm_compute.
  - by vm_compute.
  - by vm_compute.
Qed.

(** ** Bullet colours *)





Lemma entryName_shown (poi : POI) :
  entryName poi
    = if decide (length (name poi) ≤ 22)%nat then name poi
      else take 19 (name poi) ++ lit "...".
Proof.
  unfold entryName. rewrite substring_prefix.
  destruct (Nat.ltb_spec 22 (length (name poi)));
    [rewrite decide_False by lia | rewrite decide_True by lia]; reflexivity.
Qed.

(** The closest-locations section in terms of the entries themselves. *)
Lemma closestSection_rows (L : Layout) (height : number) (closestPOIs : list POI) :
  closestSection L height (closestEntries closestPOIs)
    = lit "  <!-- Closest Locations Box - Bottom Left -->" ++ nl ++
      lit "  " ++
      match closestPOIs with
      | [] => []
      | _ :: _ =>
          nl ++ closestFrame L height ++
          lit "    " ++
          concat (imap (λ i poi, closestEntryText L height (num (Z.of_nat i)) (closestEntry poi))
                       (take 4 closestPOIs)) ++
          nl ++
          lit "  </g>" ++ nl ++
          lit "  "
      end ++
      nl.
Proof.
  unfold closestSection, closestEntries. destruct closestPOIs as [| poi pois]; [reflexivity |].
  change (0 <? length (closestEntry <$> take 4 (poi :: pois)))%nat with true.
  unfold closestBox. by rewrite imap_fmap.
Qed.





(** ** Locating a piece of text in a concatenation *)

Lemma peel {A} (a s pre rest : list A) : s = pre ++ rest -> a ++ s = (a ++ pre) ++ rest.
Proof. intros ->. apply app_assoc. Qed.

(** ** The amenities legend *)

(** C8. Whatever the counts, the amenities box of the generated document
    is its frame followed by five legend entries and the end of the group:
    the listing marker in blue, then restaurants, grocery, shopping and
    parks in orange, brown, purple and green, each a dot of its colour and
    a text element with its label and count. No entry depends on a count,
    and a count of zero (of either sign) is printed as "0". *)
Theorem amenities_legend (address : jsstring) (radiusMiles : number) (stats : Stats)
    (closestPOIs : list POI) (width height : number) :
  let L := layout width height in
  let entry (rowOffset : number) (color label : jsstring) : jsstring :=
    lit "    " ++ nl ++
    lit "    <circle cx=" ++
        q (NumberToString (width - amenitiesBoxWidth L - padding L + boxPadding L
                           + dotSize L / num 2)%js) ++
        lit " " ++ nl ++
    lit "            cy=" ++
        q (NumberToString (padding L + boxPadding L + titleFontSize L + rowOffset
                           + dotSize L / num 4)%js) ++
        lit " r=" ++ q (NumberToString (dotSize L / num 2)%js) ++ lit " fill=" ++ q color ++
        lit "/>" ++ nl ++
    lit "    <text x=" ++
        q (NumberToString (width - amenitiesBoxWidth L - padding L + boxPadding L
                           + dotSize L + num 6)%js) ++
        lit " " ++ nl ++
    lit "          y=" ++
        q (NumberToString (padding L + boxPadding L + titleFontSize L + rowOffset
                           + dotSize L / num 2)%js) ++
        lit " " ++ nl ++
    lit "          class=" ++ q (lit "text") ++ lit " font-size=" ++
        q (NumberToString (textFontSize L)) ++ lit ">" ++ label ++ lit "</text>" ++ nl in
  generateOverlaySVG address radiusMiles stats closestPOIs width height
    = header width height ++ styleBlock ++
      addressBox L address radiusMiles ++
      (amenitiesFrame L width ++
       entry (lineHeight L) (lit "#1E40AF") (lit "Your Listing") ++
       entry (lineHeight L * num 2)%js (lit "#F97316")
             (lit "Restaurants: " ++ NumberToString (restaurants stats)) ++
       entry (lineHeight L * num 3)%js (lit "#92400E")
             (lit "Grocery: " ++ NumberToString (grocery stats)) ++
       entry (lineHeight L * num 4)%js (lit "#A855F7")
             (lit "Shopping: " ++ NumberToString (shopping stats)) ++
       entry (lineHeight L * num 5)%js (lit "#22C55E")
             (lit "Parks: " ++ NumberToString (parks stats)) ++
       lit "  </g>" ++ nl ++
       nl) ++
      closestSection L height (closestEntries closestPOIs) ++
      lit "</svg>" ∧
  (∀ sign, NumberToString (S754_zero sign) = lit "0") ∧
  NumberToString (num 0) = lit "0".
Proof.
  intros L entry. split_and!.
  - rewrite generateOverlaySVG_text. reflexivity.
  - reflexivity.
  - reflexivity.
Qed.

(** ** Decimal digits *)

Definition all_digits (s : jsstring) : Prop := Forall (λ c, is_digit c = true) s.

Lemma digit_is_digit (n : Z) : is_digit (digit (n mod 10)) = true.
Proof.
  pose proof (Z.mod_pos_bound n 10 eq_refl) as Hb.
  unfold is_digit, digit. apply andb_true_iff. split; apply N.leb_le; lia.
Qed.

Lemma digits_aux_all (fuel : nat) : ∀ n acc,
  all_digits acc -> all_digits (digits_aux fuel n acc).
Proof.
  induction fuel as [| fuel IH]; intros n acc Hacc; simpl; [done |].
  assert (all_digits (digit (n mod 10) :: acc))
    by (constructor; [apply digit_is_digit | done]).
  destruct (n / 10 =? 0); [done | by apply IH].
Qed.

Lemma digits_aux_length (fuel : nat) : ∀ n acc,
  (length acc ≤ length (digits_aux fuel n acc))%nat.
Proof.
  induction fuel as [| fuel IH]; intros n acc; simpl; [done |].
  destruct (n / 10 =? 0); [simpl; lia |].
  etransitivity; [| apply IH]. simpl. lia.
Qed.

Lemma decimal_all (n : Z) : all_digits (decimal n).
Proof. apply digits_aux_all. constructor. Qed.

Lemma decimal_nonempty (n : Z) : (1 ≤ length (decimal n))%nat.
Proof.
  unfold decimal. simpl. destruct (n / 10 =? 0); [simpl; lia |].
  etransitivity; [| apply digits_aux_length]. simpl. lia.
Qed.

(** ** Distances printed with one decimal *)

(** An integer part of at least one digit, a point and one digit. *)
Definition one_decimal (s : jsstring) : Prop :=
  ∃ ip d, s = ip ++ lit "." ++ [d] ∧ ip ≠ [] ∧ all_digits ip ∧ is_digit d = true.

(** The Numbers that [toFixed] prints in fixed notation: the finite ones of
    magnitude below 10^21. *)
Definition below_1e21 (x : number) : bool :=
  match x with
  | S754_zero _ => true
  | S754_finite _ m e => Qlt_bool (Qval m e) (Qten 21)
  | _ => false
  end.

Lemma fixed_digits_one (n : Z) : one_decimal (fixed_digits n 1).
Proof.
  unfold fixed_digits.
  set (ds := replicate (2 - length (decimal n)) 48%N ++ decimal n).
  assert (Hall : all_digits ds).
  { apply Forall_app. split; [| apply decimal_all].
    apply Forall_replicate. reflexivity. }
  assert (Hlen : (2 ≤ length ds)%nat).
  { unfold ds. rewrite length_app, length_replicate.
    pose proof (decimal_nonempty n). lia. }
  destruct (drop (length ds - 1) ds) as [| d [| d' tl]] eqn:Hd.
  - apply (f_equal length) in Hd. rewrite length_drop in Hd. simpl in Hd. lia.
  - exists (take (length ds - 1) ds), d. split_and!.
    + reflexivity.
    + intros Hnil. apply (f_equal length) in Hnil.
      rewrite length_take in Hnil. simpl in Hnil. lia.
    + by apply Forall_take.
    + assert (Hin : all_digits (drop (length ds - 1) ds)) by by apply Forall_drop.
      rewrite Hd in Hin. by apply Forall_cons in Hin as [? _].
  - apply (f_equal length) in Hd. rewrite length_drop in Hd. simpl in Hd. lia.
Qed.

Lemma toFixed_one (x : number) :
  if below_1e21 x
  then ∃ sign s, toFixed x 1 = sign ++ s ∧ (sign = [] ∨ sign = lit "-") ∧ one_decimal s
  else toFixed x 1 = NumberToString x.
Proof.
  destruct x as [s | s | | s m e]; unfold below_1e21, toFixed; try reflexivity.
  - exists [], (fixed_digits 0 1). split_and!; [done | by left | apply fixed_digits_one].
  - unfold Qlt_bool. destruct (Qle_bool (Qten 21) (Qval m e)); cbn [negb]; [reflexivity |].
    eexists _, _. split_and!; [reflexivity | | apply fixed_digits_one].
    destruct s; [by right | by left].
Qed.

(** ** The closest-locations box *)

(** C7, as the code has it. Without entries the closest-locations section
    of the generated document is its comment line and nothing else: no
    group, rectangle or title is emitted. Otherwise the box (group,
    rectangle, title) has one text element for each of the first four
    entries, in the order given. An entry is a bullet, the name (kept when
    it has at most 22 code units, cut to its first 19 followed by three dots
    otherwise) and the distance printed by [toFixed(1)] followed by "mi": a
    sign, digits, a point and one digit when the distance is finite and
    below 10^21 in magnitude, and the plain text of the Number otherwise. *)
Theorem closest_locations (address : jsstring) (radiusMiles : number) (stats : Stats)
    (closestPOIs : list POI) (width height : number) :
  let L := layout width height in
  let shownName (poi : POI) : jsstring :=
    if decide (length (name poi) ≤ 22)%nat then name poi else take 19 (name poi) ++ lit "..." in
  let row (i : nat) (poi : POI) : jsstring :=
    nl ++
    lit "    <text x=" ++ q (NumberToString (padding L + boxPadding L)%js) ++ lit " " ++ nl ++
    lit "          y=" ++
        q (NumberToString (height - closestBoxHeight L - padding L + boxPadding L
                           + titleFontSize L + lineHeight L * (num (Z.of_nat i) + num 1))%js) ++
        lit " " ++ nl ++
    lit "          class=" ++ q (lit "text") ++ lit " font-size=" ++
        q (NumberToString (smallFontSize L)) ++ lit ">" ++
        (lit "<tspan fill=" ++ q (entryColor poi) ++ lit ">" ++ bullet ++ lit "</tspan> " ++
         shownName poi ++ lit " (" ++ toFixed (distance poi) 1 ++ lit "mi)") ++
        lit "</text>" ++ nl ++
    lit "    " in
  generateOverlaySVG address radiusMiles stats closestPOIs width height
    = header width height ++ styleBlock ++
      addressBox L address radiusMiles ++
      amenitiesBox L stats width ++
      (lit "  <!-- Closest Locations Box - Bottom Left -->" ++ nl ++
       lit "  " ++
       match closestPOIs with
       | [] => []
       | _ :: _ =>
           nl ++
           (lit "  <g>" ++ nl ++
            lit "    <rect x=" ++ q (NumberToString (padding L)) ++ lit " y=" ++
                q (NumberToString (height - closestBoxHeight L - padding L)%js) ++ lit " " ++
                nl ++
            lit "          width=" ++ q (NumberToString (closestBoxWidth L)) ++ lit " height=" ++
                q (NumberToString (closestBoxHeight L)) ++ lit " " ++ nl ++
            lit "          class=" ++ q (lit "box") ++ lit " rx=" ++
                q (NumberToString (borderRadius L)) ++ lit " stroke=" ++ q (lit "#E5E7EB") ++
                lit " stroke-width=" ++ q (lit "1") ++ lit "/>" ++ nl ++
            lit "    <text x=" ++ q (NumberToString (padding L + boxPadding L)%js) ++
                lit " y=" ++
                q (NumberToString (height - closestBoxHeight L - padding L + boxPadding L
                                   + titleFontSize L)%js) ++
                lit " " ++ nl ++
            lit "          class=" ++ q (lit "title") ++ lit " font-size=" ++
                q (NumberToString (titleFontSize L)) ++ lit ">Closest Locations</text>" ++ nl) ++
           lit "    " ++
           concat (imap row (take 4 closestPOIs)) ++
           nl ++
           lit "  </g>" ++ nl ++
           lit "  "
       end ++
       nl) ++
      lit "</svg>" ∧
  length (take 4 closestPOIs) = Nat.min 4 (length closestPOIs) ∧
  (∀ i, take 4 closestPOIs !! i = if decide (i < 4)%nat then closestPOIs !! i else None) ∧
  (∀ poi, if below_1e21 (distance poi)
          then ∃ sign s, toFixed (distance poi) 1 = sign ++ s ∧
                         (sign = [] ∨ sign = lit "-") ∧ one_decimal s
          else toFixed (distance poi) 1 = NumberToString (distance poi)).
Proof.
  intros L shownName row. split_and!.
  - rewrite generateOverlaySVG_text, closestSection_rows. fold L.
    destruct closestPOIs as [| poi pois]; [reflexivity |].
    assert (Hrows : imap (λ i poi, closestEntryText L height (num (Z.of_nat i))
                                                    (closestEntry poi))
                         (take 4 (poi :: pois))
                    = imap row (take 4 (poi :: pois))).
    { apply imap_ext. intros i entry _. unfold closestEntryText, closestEntry, row, shownName.
      by rewrite entryName_shown. }
    rewrite Hrows. reflexivity.
  - apply length_take.
  - intros i. destruct (decide (i < 4)%nat).
    + by rewrite lookup_take_lt.
    + by rewrite lookup_take_ge by lia.
  - intros poi. apply toFixed_one.
Qed.

(** C7, as stated: a distance of 10^21 miles is not printed with one
    decimal place; the entry reads "(1e+21mi)". *)
Lemma huge_distance_has_no_decimal :
  closestEntries [Samples.far_away]
    = [ lit "<tspan fill=" ++ q (lit "#22C55E") ++ lit ">" ++ bullet ++
        lit "</tspan> Proxima (1e+21mi)" ] ∧
  toFixed (distance Samples.far_away) 1 = lit "1e+21" ∧
  ¬ ∃ sign s, toFixed (distance Samples.far_away) 1 = sign ++ s ∧
              (sign = [] ∨ sign = lit "-") ∧ one_decimal s.
Proof.
  split_and!; [by vm_compute | by vm_compute |].
  intros (sign & s & Heq & _ & ip & d & -> & _).
  assert (Hin : 46%N ∈ toFixed (distance Samples.far_away) 1).
  { rewrite Heq. rewrite !elem_of_app. right. right. left. by left. }
  vm_compute in Hin.
  repeat (apply elem_of_cons in Hin as [Hin | Hin]; [discriminate Hin |]).
  by apply elem_of_nil in Hin.
Qed.

(** ** config.getApiKeys *)

Lemma env_or_empty_lookup (env : gmap jsstring jsstring) (name : jsstring) :
  env_or_empty env name = default [] (env !! name).
Proof. unfold env_or_empty. by destruct (env !! name) as [[| c v] |]. Qed.

(** C10. [config.getApiKeys] returns the values of the environment
    variables GOOGLE_PLACES_API_KEY and MAPBOX_ACCESS_TOKEN themselves (the
    empty string when unset), next to the two flags that say whether they
    are non-empty; two environments that differ in one of the secrets get
    different responses. *)
Theorem getApiKeys_returns_secrets (env : gmap jsstring jsstring) :
  googlePlacesKey (getApiKeys env) = default [] (env !! lit "GOOGLE_PLACES_API_KEY") ∧
  mapboxToken (getApiKeys env) = default [] (env !! lit "MAPBOX_ACCESS_TOKEN") ∧
  googlePlacesConfigured (getApiKeys env)
    = bool_decide (googlePlacesKey (getApiKeys env) ≠ []) ∧
  mapboxConfigured (getApiKeys env) = bool_decide (mapboxToken (getApiKeys env) ≠ []) ∧
  (∀ key key', key ≠ key' ->
     getApiKeys (<[lit "GOOGLE_PLACES_API_KEY" := key]> env)
       ≠ getApiKeys (<[lit "GOOGLE_PLACES_API_KEY" := key']> env)) ∧
  (∀ token token', token ≠ token' ->
     getApiKeys (<[lit "MAPBOX_ACCESS_TOKEN" := token]> env)
       ≠ getApiKeys (<[lit "MAPBOX_ACCESS_TOKEN" := token']> env)).
Proof.
  split_and!.
  - apply env_or_empty_lookup.
  - apply env_or_empty_lookup.
  - unfold getApiKeys; cbn [googlePlacesConfigured googlePlacesKey].
    by destruct (GOOGLE_PLACES_API_KEY env).
  - unfold getApiKeys; cbn [mapboxConfigured mapboxToken].
    by destruct (MAPBOX_ACCESS_TOKEN env).
  - intros key key' Hne Heq. apply (f_equal googlePlacesKey) in Heq.
    unfold getApiKeys in Heq; cbn [googlePlacesKey] in Heq.
    unfold GOOGLE_PLACES_API_KEY in Heq.
    rewrite !env_or_empty_lookup, !lookup_insert_eq in Heq. done.
  - intros token token' Hne Heq. apply (f_equal mapboxToken) in Heq.
    unfold getApiKeys in Heq; cbn [mapboxToken] in Heq.
    unfold MAPBOX_ACCESS_TOKEN in Heq.
    rewrite !env_or_empty_lookup, !lookup_insert_eq in Heq. done.
Qed.

(** ** Failures of the fetch phase *)

(** The ways the fetch of the base image fails, with the error that
    [composeMapImage] throws: a response that is not [ok], or a rejection of
    [fetch] or of the reading of the body. *)
Inductive fetch_fails {B : Type} : result (Response B) -> exn -> Prop :=
  | fetch_not_ok (r : Response B) :
      ok r = false ->
      fetch_fails (Ok r)
        (new_Error (lit "Failed to fetch map image: " ++ NumberToString (status r)))
  | fetch_rejected (e : exn) :
      fetch_fails (Throw e) e
  | fetch_body_rejected (r : Response B) (e : exn) :
      ok r = true -> arrayBuffer r = Throw e ->
      fetch_fails (Ok r) e.

(** C2, as the code has it. When the fetch of the base image fails,
    [composeMapImage] throws the fetch-phase error and returns no image;
    [compositeMap] writes that error to the console and answers the caller
    with the one error "Failed to compose map image", which is the answer to
    every failure of the call. *)
Theorem fetch_failure `{Host} (inp : CompositeMapInput) (console : list console_entry)
    (e : exn) :
  fetch_fails (fetch (mapUrl inp)) e ->
  composeMapImage inp = Throw e ∧
  compositeMap inp console
    = (Throw (new_Error (lit "Failed to compose map image")),
       console ++ [ {| label := lit "Image composition error:"; logged := e |} ]).
Proof.
  intros Hfail.
  assert (Hc : composeMapImage inp = Throw e).
  { unfold composeMapImage.
    inversion Hfail as [r Hok Hr | e' Hr | r e' Hok Hbody Hr]; subst; simpl.
    - by rewrite Hok.
    - reflexivity.
    - by rewrite Hok, Hbody. }
  split; [exact Hc |]. unfold compositeMap. by rewrite Hc.
Qed.

Lemma fetch_failure_witness :
  fetch_fails (fetch (Host := Samples.serving Samples.not_found) (mapUrl Samples.request))
    (new_Error (lit "Failed to fetch map image: 404")) ∧
  composeMapImage (H := Samples.serving Samples.not_found) Samples.request
    = Throw (new_Error (lit "Failed to fetch map image: 404")) ∧
  compositeMap (H := Samples.serving Samples.not_found) Samples.request []
    = (Throw (new_Error (lit "Failed to compose map image")),
       [ {| label := lit "Image composition error:";
            logged := new_Error (lit "Failed to fetch map image: 404") |} ]).
Proof.
  assert (Hf : fetch_fails
                 (fetch (Host := Samples.serving Samples.not_found) (mapUrl Samples.request))
                 (new_Error (lit "Failed to fetch map image: 404"))).
  { exact (fetch_not_ok {| ok := false; status := num 404;
                           arrayBuffer := Ok Samples.garbage |} eq_refl). }
  split; [exact Hf |].
  exact (fetch_failure (H := Samples.serving Samples.not_found) Samples.request [] _ Hf).
Defined.

(** C2, as stated: the caller gets the same error when the base image is
    not found (a failure of the fetch phase) and when it is fetched but is
    not an image (a failure of the composition phase). *)
Lemma caller_cannot_tell_fetch_failure :
  composeMapImage (H := Samples.serving Samples.not_found) Samples.request
    = Throw (new_Error (lit "Failed to fetch map image: 404")) ∧
  composeMapImage (H := Samples.serving (Samples.success Samples.garbage)) Samples.request
    = Throw (new_Error (lit "Input buffer contains unsupported image format")) ∧
  (compositeMap (H := Samples.serving Samples.not_found) Samples.request []).1
    = (compositeMap (H := Samples.serving (Samples.success Samples.garbage))
         Samples.request []).1 ∧
  (compositeMap (H := Samples.serving Samples.not_found) Samples.request []).1
    = Throw (new_Error (lit "Failed to compose map image")).
Proof. by vm_compute. Qed.

(** ** Integers as Numbers *)

Lemma iter_xO_digits (p k : positive) :
  digits2_pos (Pos.iter xO p k) = (digits2_pos p + k)%positive.
Proof.
  induction k as [| k IH] using Pos.peano_ind.
  - simpl. lia.
  - rewrite Pos.iter_succ. simpl. rewrite IH. lia.
Qed.

Lemma iter_xO_value (p k : positive) :
  Z.pos (Pos.iter xO p k) = Z.pos p * 2 ^ Z.pos k.
Proof.
  induction k as [| k IH] using Pos.peano_ind.
  - simpl. lia.
  - rewrite Pos.iter_succ, (Pos2Z.inj_xO (Pos.iter xO p k)), IH, Pos2Z.inj_succ,
      Z.pow_succ_r by lia. lia.
Qed.

Lemma digits2_bounds (p : positive) :
  2 ^ (Z.pos (digits2_pos p) - 1) <= Z.pos p < 2 ^ Z.pos (digits2_pos p).
Proof.
  induction p as [p IH | p IH |]; simpl digits2_pos.
  - rewrite Pos2Z.inj_succ, (Pos2Z.inj_xI p).
    replace (Z.succ (Z.pos (digits2_pos p)) - 1) with (Z.succ (Z.pos (digits2_pos p) - 1)) by lia.
    rewrite !Z.pow_succ_r by lia. lia.
  - rewrite Pos2Z.inj_succ, (Pos2Z.inj_xO p).
    replace (Z.succ (Z.pos (digits2_pos p)) - 1) with (Z.succ (Z.pos (digits2_pos p) - 1)) by lia.
    rewrite !Z.pow_succ_r by lia. lia.
  - simpl. lia.
Qed.

(** A mantissa of 53 bits with an exponent in range is already rounded. *)
Lemma binary_round_aux_exact (s : bool) (m : positive) (e : Z) :
  Z.pos (digits2_pos m) = 53 -> -1074 <= e <= 971 ->
  binary_round_aux prec emax s (Z.pos m) e loc_Exact = S754_finite s m e.
Proof.
  intros Hd He. unfold binary_round_aux.
  assert (Hs : shr_fexp prec emax (Z.pos m) e loc_Exact
               = ({| shr_m := Z.pos m; shr_r := false; shr_s := false |}, e)).
  { unfold shr_fexp, fexp, emin, prec, emax. cbn [Zdigits2 shr_record_of_loc]. rewrite Hd.
    replace (Z.max (53 + e - 53) (3 - 1024 - 53) - e) with 0 by lia. reflexivity. }
  rewrite Hs. cbn [shr_m loc_of_shr_record round_nearest_even]. rewrite Hs.
  cbn [shr_m]. unfold prec, emax.
  destruct (Z.leb_spec e (1024 - 53)); [reflexivity | lia].
Qed.

(** The Number of a positive integer below 2^53: the integer shifted to a
    mantissa of 53 bits. *)
Lemma num_pos (p : positive) :
  Z.pos p < 2 ^ 53 ->
  ∃ m e, num (Z.pos p) = S754_finite false m e ∧
         e <= 0 ∧ Z.pos m = Z.pos p * 2 ^ (- e).
Proof.
  intros Hp. pose proof (digits2_bounds p) as Hb.
  assert (Hd : Z.pos (digits2_pos p) <= 53).
  { destruct (Z.le_gt_cases (Z.pos (digits2_pos p)) 53) as [| Hgt]; [done |].
    assert (2 ^ 53 <= 2 ^ (Z.pos (digits2_pos p) - 1)) by (apply Z.pow_le_mono_r; lia).
    lia. }
  unfold num, binary_normalize, binary_round, shl_align, fexp, emin, prec, emax.
  replace (Z.max (Z.pos (digits2_pos p) + 0 - 53) (3 - 1024 - 53) - 0)
    with (Z.pos (digits2_pos p) - 53) by lia.
  replace (Z.max (Z.pos (digits2_pos p) + 0 - 53) (3 - 1024 - 53))
    with (Z.pos (digits2_pos p) - 53) by lia.
  destruct (Z.pos (digits2_pos p) - 53) as [| k | k] eqn:Hk; [| lia |].
  - exists p, 0. split_and!; [| lia | lia].
    apply binary_round_aux_exact; lia.
  - exists (Pos.iter xO p k), (Z.neg k). split_and!; [| lia |].
    + apply binary_round_aux_exact; [| lia]. rewrite iter_xO_digits. lia.
    + rewrite iter_xO_value. reflexivity.
Qed.

Lemma safe_integer_shifted (m : positive) (e : Z) (z : Z) :
  e <= 0 -> Z.pos m = z * 2 ^ (- e) -> z < 2 ^ 53 -> safe_integer m e = Some z.
Proof.
  intros He Hm Hz. unfold safe_integer.
  assert (Hpow : 0 < 2 ^ (- e)) by (apply Z.pow_pos_nonneg; lia).
  rewrite Hm, Z.mod_mul, Z.div_mul by lia.
  destruct (Z.leb_spec e 0); [| lia]. destruct (Z.ltb_spec z (2 ^ 53)); [| lia].
  reflexivity.
Qed.

(** Such a Number is truthy and prints as the decimal digits of the
    integer. *)
Lemma num_pos_prints (z : Z) :
  0 < z < 2 ^ 53 ->
  truthy_number (num z) = true ∧ NumberToString (num z) = decimal z.
Proof.
  intros [Hpos Hlt]. destruct z as [| p | p]; try lia.
  destruct (num_pos p Hlt) as (m & e & -> & He & Hm).
  split; [reflexivity |].
  unfold NumberToString, to_string_finite.
  by rewrite (safe_integer_shifted m e (Z.pos p)).
Qed.

(** ** The compositor *)

(** The overlay generated for a canvas of [w] by [h] pixels opens with a
    root element that declares that size. *)
Lemma generateOverlaySVG_header (address : jsstring) (radiusMiles : number) (stats : Stats)
    (closestPOIs : list POI) (w h : Z) :
  0 < w < 2 ^ 53 -> 0 < h < 2 ^ 53 ->
  generateOverlaySVG address radiusMiles stats closestPOIs (num w) (num h)
    = lit "<svg width=" ++ q (decimal w) ++ lit " height=" ++ q (decimal h) ++
      lit " xmlns=" ++ q (lit "http://www.w3.org/2000/svg") ++ lit ">" ++ nl ++
      styleBlock ++
      addressBox (layout (num w) (num h)) address radiusMiles ++
      amenitiesBox (layout (num w) (num h)) stats (num w) ++
      closestSection (layout (num w) (num h)) (num h) (closestEntries closestPOIs) ++
      lit "</svg>".
Proof.
  intros Hw Hh. rewrite generateOverlaySVG_text. unfold header.
  destruct (num_pos_prints w Hw) as [_ ->]. destruct (num_pos_prints h Hh) as [_ ->].
  by rewrite <- !app_assoc.
Qed.

Section Compositor.
Context `{H : Host}.
Context (inp : CompositeMapInput) (response : Response Buffer) (mapBuffer : Buffer).
Hypothesis fetched : fetch (mapUrl inp) = Ok response.
Hypothesis response_ok : ok response = true.
Hypothesis body_read : arrayBuffer response = Ok mapBuffer.

(** After a successful fetch the call is the metadata query followed by
    the composite step. *)
Lemma composeMapImage_fetched :
  composeMapImage inp
    = (metadata ← sharp_metadata mapBuffer;
       composited ← sharp_composite_png mapBuffer
                      [ {| input := generateOverlaySVG (address inp) (radius inp) (stats inp)
                                      (closestPOIs inp)
                                      (or_default (meta_width metadata) (num 1280))
                                      (or_default (meta_height metadata) (num 960));
                           top := num 0; left := num 0 |} ];
       mret (toBase64 composited)).
Proof.
  unfold composeMapImage. rewrite fetched. cbn [mbind result_bind].
  rewrite response_ok. cbn [negb]. rewrite body_read. reflexivity.
Qed.


(** X21. When the metadata of the fetched base image reports [w] by [h]
    pixels, [composeMapImage] hands the composite step that same buffer
    with a single overlay, the document generated for a canvas of [w] by
    [h], whose root element declares that size, placed at top 0 and left 0,
    and returns the encoding of what that step produces. *)
Theorem overlay_at_measured_size (metadata : Metadata) (w h : Z) :
  sharp_metadata mapBuffer = Ok metadata ->
  meta_width metadata = Some (num w) -> meta_height metadata = Some (num h) ->
  0 < w < 2 ^ 53 -> 0 < h < 2 ^ 53 ->
  let overlay :=
    {| input := generateOverlaySVG (address inp) (radius inp) (stats inp) (closestPOIs inp)
                                   (num w) (num h);
       top := num 0; left := num 0 |} in
  composeMapImage inp
    = (composited ← sharp_composite_png mapBuffer [overlay]; mret (toBase64 composited)) ∧
  input overlay
    = lit "<svg width=" ++ q (decimal w) ++ lit " height=" ++ q (decimal h) ++
      lit " xmlns=" ++ q (lit "http://www.w3.org/2000/svg") ++ lit ">" ++ nl ++
      styleBlock ++
      addressBox (layout (num w) (num h)) (address inp) (radius inp) ++
      amenitiesBox (layout (num w) (num h)) (stats inp) (num w) ++
      closestSection (layout (num w) (num h)) (num h) (closestEntries (closestPOIs inp)) ++
      lit "</svg>".
Proof.
  intros Hmeta Hwidth Hheight Hw Hh overlay. split.
  - rewrite composeMapImage_fetched, Hmeta. cbn [mbind result_bind].
    rewrite Hwidth, Hheight. unfold or_default.
    destruct (num_pos_prints w Hw) as [-> _]. destruct (num_pos_prints h Hh) as [-> _].
    reflexivity.
  - by apply generateOverlaySVG_header.
Qed.

End Compositor.


Lemma overlay_at_measured_size_witness :
  composeMapImage (H := Samples.serving (Samples.success (Samples.picture 1280 960)))
                  Samples.request
  = (composited ← sharp_composite_png
                    (Host := Samples.serving (Samples.success (Samples.picture 1280 960)))
                    (Samples.picture 1280 960)
                    [ {| input := generateOverlaySVG (address Samples.request)
                                    (radius Samples.request) (stats Samples.request)
                                    (closestPOIs Samples.request) (num 1280) (num 960);
                         top := num 0; left := num 0 |} ];
     mret (toBase64 composited)).
Proof.
  exact (proj1 (overlay_at_measured_size
                  (H := Samples.serving (Samples.success (Samples.picture 1280 960)))
                  Samples.request
                  {| ok := true; status := num 200;
                     arrayBuffer := Ok (Samples.picture 1280 960) |}
                  (Samples.picture 1280 960) eq_refl eq_refl eq_refl
                  {| meta_width := Some (num 1280); meta_height := Some (num 960) |} 1280 960
                  eq_refl eq_refl eq_refl ltac:(lia) ltac:(lia))).
Defined.

(** ** Rounding in binary64

    What the layout needs from the arithmetic of Numbers: on positive
    normal Numbers, a product or quotient is within one unit in the last
    place of the exact result. *)

(** A mantissa of exactly 53 bits. *)
Definition canonical (m : positive) : Prop := Z.pos (digits2_pos m) = 53.

Lemma digits2_unique (p : positive) (k : Z) :
  2 ^ (k - 1) <= Z.pos p < 2 ^ k -> Z.pos (digits2_pos p) = k.
Proof.
  intros [Hlo Hhi]. pose proof (digits2_bounds p) as [Hlo' Hhi'].
  assert (Hk : 0 < k).
  { destruct (Z.lt_ge_cases 0 k) as [| Hneg]; [done |].
    destruct (Z.eq_dec k 0) as [-> | Hne]; [simpl in Hhi; lia |].
    rewrite Z.pow_neg_r in Hhi by lia. lia. }
  destruct (Z.lt_total (Z.pos (digits2_pos p)) k) as [Hlt | [Heq | Hgt]]; [| done |].
  - assert (2 ^ Z.pos (digits2_pos p) <= 2 ^ (k - 1)) by (apply Z.pow_le_mono_r; lia). lia.
  - assert (2 ^ k <= 2 ^ (Z.pos (digits2_pos p) - 1)) by (apply Z.pow_le_mono_r; lia). lia.
Qed.

Lemma canonical_bounds (m : positive) : canonical m <-> 2 ^ 52 <= Z.pos m < 2 ^ 53.
Proof.
  unfold canonical. split.
  - intros Hd. pose proof (digits2_bounds m) as Hb. rewrite Hd in Hb. exact Hb.
  - intros Hb. by apply digits2_unique.
Qed.

Lemma shr_1_m (mrs : shr_record) : 0 <= shr_m mrs -> shr_m (shr_1 mrs) = shr_m mrs / 2.
Proof.
  destruct mrs as [m r s]. cbn [shr_m]. intros Hm.
  destruct m as [| [p | p |] | p]; cbn [shr_1 shr_m]; try lia.
  - reflexivity.
  - rewrite (Pos2Z.inj_xI p). apply Z.div_unique with 1; lia.
  - rewrite (Pos2Z.inj_xO p). apply Z.div_unique with 0; lia.
  - reflexivity.
Qed.

Lemma iter_shr_m (p : positive) : ∀ mrs,
  0 <= shr_m mrs -> shr_m (SpecFloat.iter_pos shr_1 p mrs) = shr_m mrs / 2 ^ Z.pos p.
Proof.
  assert (Hpow : ∀ q, 0 < 2 ^ Z.pos q) by (intros q; apply Z.pow_pos_nonneg; lia).
  assert (Hnonneg : ∀ q mrs, 0 <= shr_m mrs -> 0 <= shr_m mrs / 2 ^ Z.pos q).
  { intros q mrs Hm. apply Z.div_pos; [done | apply Hpow]. }
  induction p as [p IH | p IH |]; intros mrs Hm; cbn [SpecFloat.iter_pos].
  - assert (Hm1 : 0 <= shr_m (shr_1 mrs)).
    { rewrite shr_1_m by done. apply Z.div_pos; lia. }
    rewrite IH by (rewrite IH by done; by apply Hnonneg).
    rewrite IH, shr_1_m by done.
    pose proof (Hpow p) as Hp.
    rewrite !Z.div_div by lia.
    f_equal. rewrite (Pos2Z.inj_xI p).
    replace (2 * Z.pos p + 1) with (1 + Z.pos p + Z.pos p) by lia.
    rewrite !Z.pow_add_r by lia. lia.
  - rewrite IH by (rewrite IH by done; by apply Hnonneg).
    rewrite IH by done. pose proof (Hpow p) as Hp. rewrite Z.div_div by lia.
    f_equal. rewrite (Pos2Z.inj_xO p).
    replace (2 * Z.pos p) with (Z.pos p + Z.pos p) by lia.
    rewrite Z.pow_add_r by lia. lia.
  - by apply shr_1_m.
Qed.

Lemma shr_record_of_loc_m (m : Z) (l : location) : shr_m (shr_record_of_loc m l) = m.
Proof. by destruct l as [| []]. Qed.

Lemma round_nearest_even_cases (m : Z) (l : location) :
  round_nearest_even m l = m ∨ round_nearest_even m l = m + 1.
Proof. destruct l as [| []]; cbn; try destruct (Z.even m); auto. Qed.

(** Shifting [mx] right by [n] bits. *)
Lemma shr_m_shift (mx : positive) (ex n : Z) (l : location) :
  0 <= n ->
  let '(mrs, e) := shr (shr_record_of_loc (Z.pos mx) l) ex n in
  shr_m mrs = Z.pos mx / 2 ^ n ∧ e = ex + n.
Proof.
  intros Hn. destruct n as [| p | p]; [| | lia]; cbn [shr].
  - rewrite shr_record_of_loc_m, Z.pow_0_r, Z.div_1_r. lia.
  - rewrite iter_shr_m, shr_record_of_loc_m by (rewrite shr_record_of_loc_m; lia). done.
Qed.

Lemma shr_fexp_normal (mx : positive) (ex : Z) (l : location) :
  53 <= Z.pos (digits2_pos mx) -> -1074 <= ex + Z.pos (digits2_pos mx) - 53 ->
  ∃ mrs, shr_fexp prec emax (Z.pos mx) ex l = (mrs, ex + (Z.pos (digits2_pos mx) - 53)) ∧
         shr_m mrs = Z.pos mx / 2 ^ (Z.pos (digits2_pos mx) - 53).
Proof.
  intros Hd He. unfold shr_fexp, fexp, emin, prec, emax. cbn [Zdigits2].
  replace (Z.max (Z.pos (digits2_pos mx) + ex - 53) (3 - 1024 - 53) - ex)
    with (Z.pos (digits2_pos mx) - 53) by lia.
  pose proof (shr_m_shift mx ex (Z.pos (digits2_pos mx) - 53) l ltac:(lia)) as Hs.
  destruct (shr _ _ _) as [mrs e]. destruct Hs as [Hm ->]. by exists mrs.
Qed.

(** Rounding a mantissa of at least 53 bits in the normal range: the
    result has the mantissa cut to 53 bits, or its successor. *)
Lemma binary_round_aux_bounds (s : bool) (mx : positive) (ex : Z) (lx : location) :
  53 <= Z.pos (digits2_pos mx) ->
  -1074 <= ex + Z.pos (digits2_pos mx) - 53 < 971 ->
  ∃ m' e', binary_round_aux prec emax s (Z.pos mx) ex lx = S754_finite s m' e' ∧
           canonical m' ∧
           2 ^ 52 <= Z.pos mx / 2 ^ (Z.pos (digits2_pos mx) - 53) < 2 ^ 53 ∧
           ((e' = ex + (Z.pos (digits2_pos mx) - 53) ∧
             (Z.pos m' = Z.pos mx / 2 ^ (Z.pos (digits2_pos mx) - 53) ∨
              Z.pos m' = Z.pos mx / 2 ^ (Z.pos (digits2_pos mx) - 53) + 1)) ∨
            (e' = ex + (Z.pos (digits2_pos mx) - 53) + 1 ∧ Z.pos m' = 2 ^ 52 ∧
             Z.pos mx / 2 ^ (Z.pos (digits2_pos mx) - 53) + 1 = 2 ^ 53)).
Proof.
  intros Hd He.
  set (sh := Z.pos (digits2_pos mx) - 53) in *.
  set (M := Z.pos mx / 2 ^ sh).
  assert (Hsh : 0 < 2 ^ sh) by (apply Z.pow_pos_nonneg; lia).
  assert (HM : 2 ^ 52 <= M < 2 ^ 53).
  { pose proof (digits2_bounds mx) as [Hlo Hhi].
    replace (Z.pos (digits2_pos mx) - 1) with (sh + 52) in Hlo by (unfold sh; lia).
    replace (Z.pos (digits2_pos mx)) with (sh + 53) in Hhi by (unfold sh; lia).
    rewrite Z.pow_add_r in Hlo, Hhi by lia. unfold M. split.
    - apply Z.div_le_lower_bound; lia.
    - apply Z.div_lt_upper_bound; lia. }
  unfold binary_round_aux.
  destruct (shr_fexp_normal mx ex lx Hd ltac:(lia)) as (mrs & -> & Hmrs).
  fold sh in Hmrs. fold M in Hmrs. fold sh. rewrite Hmrs.
  destruct (round_nearest_even_cases M (loc_of_shr_record mrs)) as [-> | ->].
  - (* the mantissa is kept *)
    destruct M as [| pm | pm] eqn:HMeq; try lia.
    assert (Hc : canonical pm) by by apply canonical_bounds.
    destruct (shr_fexp_normal pm (ex + sh) loc_Exact) as (mrs' & -> & Hmrs').
    { rewrite Hc; lia. } { rewrite Hc; lia. }
    rewrite Hc, Z.sub_diag, Z.pow_0_r, Z.div_1_r in Hmrs'. rewrite Hmrs'.
    rewrite Hc, Z.sub_diag, Z.add_0_r. unfold prec, emax.
    destruct (Z.leb_spec (ex + sh) (1024 - 53)); [| lia].
    exists pm, (ex + sh). split_and!; [done | done | lia | lia |]. left. split; [done | by left].
  - (* the mantissa is incremented *)
    destruct (M + 1) as [| pm | pm] eqn:HMeq; try lia.
    destruct (Z.lt_ge_cases (Z.pos pm) (2 ^ 53)) as [Hlt | Hge].
    + assert (Hc : canonical pm) by (apply canonical_bounds; lia).
      destruct (shr_fexp_normal pm (ex + sh) loc_Exact) as (mrs' & -> & Hmrs').
      { rewrite Hc; lia. } { rewrite Hc; lia. }
      rewrite Hc, Z.sub_diag, Z.pow_0_r, Z.div_1_r in Hmrs'. rewrite Hmrs'.
      rewrite Hc, Z.sub_diag, Z.add_0_r. unfold prec, emax.
      destruct (Z.leb_spec (ex + sh) (1024 - 53)); [| lia].
      exists pm, (ex + sh). split_and!; [done | done | lia | lia |].
      left. split; [done | right; lia].
    + assert (Hpm : Z.pos pm = 2 ^ 53) by lia.
      assert (Hdig : Z.pos (digits2_pos pm) = 54) by (apply digits2_unique; rewrite Hpm; lia).
      destruct (shr_fexp_normal pm (ex + sh) loc_Exact) as (mrs' & -> & Hmrs').
      { rewrite Hdig; lia. } { rewrite Hdig; lia. }
      rewrite Hdig, Hpm in Hmrs'. change (2 ^ 53 / 2 ^ (54 - 53)) with (2 ^ 52) in Hmrs'.
      rewrite Hmrs'. rewrite Hdig. unfold prec, emax.
      change (2 ^ 52) with (Z.pos 4503599627370496).
      destruct (Z.leb_spec (ex + sh + (54 - 53)) (1024 - 53)); [| lia].
      exists 4503599627370496%positive, (ex + sh + (54 - 53)).
      split_and!; [done | reflexivity | lia | lia |]. right. split_and!; lia.
Qed.

(** *** Exact values *)

Definition Q2 (e : Z) : Q := ((2 # 1) ^ e)%Q.

(** The unit roundoff used below: one unit in the last place of 1. *)
Definition ulp1 : Q := 1 # 4503599627370496.

Lemma Q2_pos (e : Z) : (0 < Q2 e)%Q.
Proof. apply Qpower_0_lt. reflexivity. Qed.

Lemma Q2_add (a b : Z) : (Q2 (a + b) == Q2 a * Q2 b)%Q.
Proof. apply Qpower_plus. discriminate. Qed.

Lemma Q2_Z (k : Z) : 0 <= k -> (inject_Z (2 ^ k) == Q2 k)%Q.
Proof. intros Hk. by apply Zpower_Qpower. Qed.

Lemma Qval_Q2 (m : positive) (e : Z) : Qval m e = (inject_Z (Z.pos m) * Q2 e)%Q.
Proof. reflexivity. Qed.

Lemma Qval_pos (m : positive) (e : Z) : (0 < Qval m e)%Q.
Proof.
  rewrite Qval_Q2. pose proof (Q2_pos e).
  assert (0 < inject_Z (Z.pos m))%Q by (change 0%Q with (inject_Z 0); rewrite <- Zlt_Qlt; lia).
  nra.
Qed.

(** A real between two neighbours of spacing [t], and a Number that is
    one of the two neighbours. *)
Lemma rounded_interval (a t z v : Q) :
  (inject_Z (2 ^ 52) <= a -> 0 < t -> a * t <= z -> z < (a + 1) * t ->
   a * t <= v -> v <= (a + 1) * t ->
   z * (1 - ulp1) <= v ∧ v <= z * (1 + ulp1))%Q.
Proof.
  intros Ha Ht Hz1 Hz2 Hv1 Hv2. unfold ulp1.
  assert (Hu : (inject_Z (2 ^ 52) * t <= z)%Q) by nra.
  change (inject_Z (2 ^ 52)) with (4503599627370496 # 1)%Q in *.
  split; lra.
Qed.

(** The rounding lemma in terms of exact values: if the exact result lies
    between [mx * 2^ex] and [(mx+1) * 2^ex], the rounded Number is within a
    relative error of [ulp1] of it. *)
Lemma binary_round_aux_Q (s : bool) (mx : positive) (ex : Z) (lx : location) (z : Q) :
  53 <= Z.pos (digits2_pos mx) ->
  -1074 <= ex + Z.pos (digits2_pos mx) - 53 < 971 ->
  (inject_Z (Z.pos mx) * Q2 ex <= z)%Q -> (z < inject_Z (Z.pos mx + 1) * Q2 ex)%Q ->
  ∃ m' e', binary_round_aux prec emax s (Z.pos mx) ex lx = S754_finite s m' e' ∧
           canonical m' ∧
           (z * (1 - ulp1) <= Qval m' e' ∧ Qval m' e' <= z * (1 + ulp1))%Q.
Proof.
  intros Hd He Hz1 Hz2.
  destruct (binary_round_aux_bounds s mx ex lx Hd He) as (m' & e' & Hr & Hc & HM & Hcases).
  exists m', e'. split; [done |]. split; [done |].
  set (sh := Z.pos (digits2_pos mx) - 53) in *.
  set (M := Z.pos mx / 2 ^ sh) in *.
  assert (Hsh : 0 < 2 ^ sh) by (apply Z.pow_pos_nonneg; unfold sh; lia).
  assert (Hdiv1 : 2 ^ sh * M <= Z.pos mx) by (apply Z.mul_div_le; lia).
  assert (Hdiv2 : Z.pos mx + 1 <= 2 ^ sh * (M + 1)).
  { pose proof (Z.mul_succ_div_gt (Z.pos mx) (2 ^ sh) Hsh). fold M in H. lia. }
  pose proof (Q2_pos ex) as Hex. pose proof (Q2_pos (ex + sh)) as Ht.
  assert (Hsplit : (Q2 (ex + sh) == inject_Z (2 ^ sh) * Q2 ex)%Q).
  { rewrite Q2_add, Q2_Z by (unfold sh; lia). ring. }
  apply (rounded_interval (inject_Z M) (Q2 (ex + sh))).
  - rewrite <- Zle_Qle. lia.
  - done.
  - rewrite Hsplit. rewrite Zle_Qle, inject_Z_mult in Hdiv1.
    apply (Qmult_le_compat_r _ _ (Q2 ex)) in Hdiv1; [| lra]. lra.
  - rewrite Hsplit. rewrite Zle_Qle, inject_Z_mult, !inject_Z_plus in Hdiv2.
    rewrite inject_Z_plus in Hz2. change (inject_Z 1) with 1%Q in *.
    apply (Qmult_le_compat_r _ _ (Q2 ex)) in Hdiv2; [| lra]. lra.
  - rewrite Qval_Q2. destruct Hcases as [[-> [-> | ->]] | (-> & -> & Hcarry)].
    + lra.
    + rewrite inject_Z_plus. change (inject_Z 1) with 1%Q. nra.
    + rewrite (Q2_add (ex + sh) 1). change (Q2 1) with 2%Q.
      assert (HMq : (inject_Z M == inject_Z (2 ^ 53) - 1)%Q).
      { rewrite <- Hcarry, inject_Z_plus. change (inject_Z 1) with 1%Q. ring. }
      rewrite HMq. change (inject_Z (2 ^ 52)) with (4503599627370496 # 1)%Q.
      change (inject_Z (2 ^ 53)) with (9007199254740992 # 1)%Q. nra.
  - rewrite Qval_Q2. destruct Hcases as [[-> [-> | ->]] | (-> & -> & Hcarry)].
    + nra.
    + rewrite inject_Z_plus. change (inject_Z 1) with 1%Q. lra.
    + rewrite (Q2_add (ex + sh) 1). change (Q2 1) with 2%Q.
      assert (HMq : (inject_Z M == inject_Z (2 ^ 53) - 1)%Q).
      { rewrite <- Hcarry, inject_Z_plus. change (inject_Z 1) with 1%Q. ring. }
      rewrite HMq. change (inject_Z (2 ^ 52)) with (4503599627370496 # 1)%Q.
      change (inject_Z (2 ^ 53)) with (9007199254740992 # 1)%Q. nra.
Qed.

(** The product of two positive normal Numbers. *)
Lemma mul_bounds (m1 m2 : positive) (e1 e2 : Z) :
  canonical m1 -> canonical m2 -> -1074 <= e1 + e2 + 52 -> e1 + e2 + 53 < 971 ->
  ∃ m' e', mul (S754_finite false m1 e1) (S754_finite false m2 e2) = S754_finite false m' e' ∧
           canonical m' ∧
           (Qval m1 e1 * Qval m2 e2 * (1 - ulp1) <= Qval m' e' ∧
            Qval m' e' <= Qval m1 e1 * Qval m2 e2 * (1 + ulp1))%Q.
Proof.
  intros Hc1 Hc2 Hlo Hhi. apply canonical_bounds in Hc1, Hc2.
  unfold mul, SFmul. cbn [xorb].
  assert (HP : 2 ^ 104 <= Z.pos (m1 * m2) < 2 ^ 106).
  { rewrite Pos2Z.inj_mul. change (2 ^ 104) with (2 ^ 52 * 2 ^ 52).
    change (2 ^ 106) with (2 ^ 53 * 2 ^ 53). nia. }
  pose proof (digits2_bounds (m1 * m2)) as Hb.
  assert (Hd : 105 <= Z.pos (digits2_pos (m1 * m2)) <= 106).
  { split.
    - destruct (Z.le_gt_cases 105 (Z.pos (digits2_pos (m1 * m2)))) as [| Hlt]; [done |].
      assert (2 ^ Z.pos (digits2_pos (m1 * m2)) <= 2 ^ 104) by (apply Z.pow_le_mono_r; lia).
      lia.
    - destruct (Z.le_gt_cases (Z.pos (digits2_pos (m1 * m2))) 106) as [| Hgt]; [done |].
      assert (2 ^ 106 <= 2 ^ (Z.pos (digits2_pos (m1 * m2)) - 1))
        by (apply Z.pow_le_mono_r; lia).
      lia. }
  assert (Hz : (Qval m1 e1 * Qval m2 e2 == inject_Z (Z.pos (m1 * m2)) * Q2 (e1 + e2))%Q).
  { rewrite !Qval_Q2, Q2_add, Pos2Z.inj_mul, inject_Z_mult. ring. }
  pose proof (Q2_pos (e1 + e2)) as Hq.
  apply binary_round_aux_Q; [lia | lia | |].
  - rewrite Hz. lra.
  - rewrite Hz, inject_Z_plus. change (inject_Z 1) with 1%Q. lra.
Qed.

(** The quotient of two positive normal Numbers; [z] is the exact
    quotient. *)
Lemma div_bounds (m1 m2 : positive) (e1 e2 : Z) (z : Q) :
  canonical m1 -> canonical m2 -> -1074 <= e1 - e2 - 53 -> e1 - e2 + 1 < 971 ->
  (z * Qval m2 e2 == Qval m1 e1)%Q ->
  ∃ m' e', div (S754_finite false m1 e1) (S754_finite false m2 e2) = S754_finite false m' e' ∧
           canonical m' ∧
           (z * (1 - ulp1) <= Qval m' e' ∧ Qval m' e' <= z * (1 + ulp1))%Q.
Proof.
  intros Hc1 Hc2 Hlo Hhi Hz. pose proof Hc1 as Hb1. pose proof Hc2 as Hb2.
  apply canonical_bounds in Hb1, Hb2. unfold canonical in Hc1, Hc2.
  unfold div, SFdiv, SFdiv_core_binary. cbn [xorb Zdigits2]. rewrite Hc1, Hc2.
  unfold fexp, emin, prec, emax.
  replace (Z.min (Z.max (53 + e1 - (53 + e2) - 53) (3 - 1024 - 53)) (e1 - e2))
    with (e1 - e2 - 53) by lia.
  replace (e1 - e2 - (e1 - e2 - 53)) with 53 by lia.
  rewrite Z.shiftl_mul_pow2 by lia.
  pose proof (Z.div_mod (Z.pos m1 * 2 ^ 53) (Z.pos m2) ltac:(lia)) as Hdm.
  pose proof (Z.mod_pos_bound (Z.pos m1 * 2 ^ 53) (Z.pos m2) ltac:(lia)) as Hmod.
  unfold Z.modulo, Z.div in Hdm, Hmod.
  destruct (Z.div_eucl (Z.pos m1 * 2 ^ 53) (Z.pos m2)) as [q r].
  assert (Hq : 2 ^ 52 <= q < 2 ^ 54).
  { change (2 ^ 54) with (2 * 2 ^ 53). change (2 ^ 53) with (2 * 2 ^ 52) in *. nia. }
  destruct q as [| q | q]; try lia.
  pose proof (digits2_bounds q) as Hb.
  assert (Hd : 53 <= Z.pos (digits2_pos q) <= 54).
  { split.
    - destruct (Z.le_gt_cases 53 (Z.pos (digits2_pos q))) as [| Hlt]; [done |].
      assert (2 ^ Z.pos (digits2_pos q) <= 2 ^ 52) by (apply Z.pow_le_mono_r; lia). lia.
    - destruct (Z.le_gt_cases (Z.pos (digits2_pos q)) 54) as [| Hgt]; [done |].
      assert (2 ^ 54 <= 2 ^ (Z.pos (digits2_pos q) - 1)) by (apply Z.pow_le_mono_r; lia).
      lia. }
  pose proof (Q2_pos e1) as Hq1. pose proof (Q2_pos e2) as Hq2.
  pose proof (Q2_pos (e1 - e2 - 53)) as Hq3.
  assert (He1 : (Q2 e1 == Q2 (e1 - e2 - 53) * Q2 e2 * inject_Z (2 ^ 53))%Q).
  { rewrite Q2_Z, <- !Q2_add by lia. replace (e1 - e2 - 53 + e2 + 53) with e1 by lia.
    reflexivity. }
  rewrite !Qval_Q2, He1 in Hz.
  assert (Hm2 : (0 < inject_Z (Z.pos m2))%Q)
    by (change 0%Q with (inject_Z 0); rewrite <- Zlt_Qlt; lia).
  (* z * m2 = m1 * 2^53 * 2^(e1-e2-53) *)
  assert (Hz' : (z * inject_Z (Z.pos m2)
                 == inject_Z (Z.pos m1 * 2 ^ 53) * Q2 (e1 - e2 - 53))%Q).
  { rewrite inject_Z_mult.
    apply (Qmult_inj_r _ _ (Q2 e2)); [lra |]. rewrite <- Qmult_assoc, Hz. ring. }
  rewrite Hdm, inject_Z_plus, inject_Z_mult in Hz'.
  assert (Hr0 : (0 <= inject_Z r)%Q)
    by (change 0%Q with (inject_Z 0); rewrite <- Zle_Qle; lia).
  assert (Hr1 : (inject_Z r < inject_Z (Z.pos m2))%Q) by (rewrite <- Zlt_Qlt; lia).
  apply binary_round_aux_Q; [lia | lia | |].
  - (* q * t <= z, since q * t * m2 <= z * m2 *)
    apply (Qmult_le_r _ _ (inject_Z (Z.pos m2))); [done |]. rewrite Hz'. nra.
  - apply (Qmult_lt_r _ _ (inject_Z (Z.pos m2))); [done |]. rewrite Hz'.
    rewrite inject_Z_plus. change (inject_Z 1) with 1%Q. nra.
Qed.

Lemma Q2_le_mono (a b : Z) : a <= b -> (Q2 a <= Q2 b)%Q.
Proof.
  intros Hab. pose proof (Q2_add a (b - a)) as Hsum.
  replace (a + (b - a)) with b in Hsum by lia.
  pose proof (Q2_Z (b - a) ltac:(lia)) as Hz.
  pose proof (Q2_pos a).
  assert (0 < 2 ^ (b - a)) by (apply Z.pow_pos_nonneg; lia).
  assert (1 <= inject_Z (2 ^ (b - a)))%Q
    by (change 1%Q with (inject_Z 1); rewrite <- Zle_Qle; lia).
  nra.
Qed.

Lemma Q2_lt_inv (a b : Z) : (Q2 a < Q2 b)%Q -> a < b.
Proof.
  intros Hlt. destruct (Z.lt_ge_cases a b) as [| Hge]; [done |].
  pose proof (Q2_le_mono b a Hge). lra.
Qed.

Lemma canonical_Q (m : positive) :
  canonical m ->
  ((4503599627370496 # 1) <= inject_Z (Z.pos m) ∧ inject_Z (Z.pos m) < (9007199254740992 # 1))%Q.
Proof.
  intros Hc. apply canonical_bounds in Hc as [Hlo Hhi].
  change (4503599627370496 # 1)%Q with (inject_Z (2 ^ 52)).
  change (9007199254740992 # 1)%Q with (inject_Z (2 ^ 53)).
  by rewrite <- Zle_Qle, <- Zlt_Qlt.
Qed.

(** Of two positive normal Numbers, the one with the smaller exponent is
    the smaller. *)
Lemma Qval_exponent_lt (m1 m2 : positive) (e1 e2 : Z) :
  canonical m1 -> canonical m2 -> e1 < e2 -> (Qval m1 e1 < Qval m2 e2)%Q.
Proof.
  intros Hc1 Hc2 He. apply canonical_Q in Hc1, Hc2. rewrite !Qval_Q2.
  pose proof (Q2_pos e1) as Hp. pose proof (Q2_le_mono (e1 + 1) e2 ltac:(lia)) as Hm.
  rewrite Q2_add in Hm. change (Q2 1) with 2%Q in Hm. nra.
Qed.

(** [<] on positive normal Numbers is the order of their values. *)
Lemma SFltb_canonical (m1 m2 : positive) (e1 e2 : Z) :
  canonical m1 -> canonical m2 ->
  SFltb (S754_finite false m1 e1) (S754_finite false m2 e2) = true
  <-> (Qval m1 e1 < Qval m2 e2)%Q.
Proof.
  intros Hc1 Hc2. unfold SFltb, SFcompare.
  destruct (Z.compare_spec e1 e2) as [-> | He | He].
  - rewrite Pos.compare_cont_spec. unfold Pos.switch_Eq. rewrite !Qval_Q2.
    pose proof (Q2_pos e2) as Hp.
    destruct (Pos.compare_spec m1 m2) as [-> | Hm | Hm].
    + split; [done | lra].
    + split; [intros _ | done].
      assert (inject_Z (Z.pos m1) < inject_Z (Z.pos m2))%Q by (rewrite <- Zlt_Qlt; lia). nra.
    + split; [done |]. intros Hlt.
      assert (inject_Z (Z.pos m2) < inject_Z (Z.pos m1))%Q by (rewrite <- Zlt_Qlt; lia). nra.
  - split; [intros _ | done]. by apply Qval_exponent_lt.
  - split; [done |]. intros Hlt. pose proof (Qval_exponent_lt m2 m1 e2 e1 Hc2 Hc1 He). lra.
Qed.

(** The Number of a positive integer below 2^53 is normal and has the
    integer as its value. *)
Lemma num_pos_normal (z : Z) :
  0 < z < 2 ^ 53 ->
  ∃ m e, num z = S754_finite false m e ∧ canonical m ∧ -52 <= e <= 0 ∧
         (Qval m e == inject_Z z)%Q.
Proof.
  intros [Hpos Hlt]. destruct z as [| p | p]; try lia.
  pose proof (digits2_bounds p) as Hb.
  assert (Hd : Z.pos (digits2_pos p) <= 53).
  { destruct (Z.le_gt_cases (Z.pos (digits2_pos p)) 53) as [| Hgt]; [done |].
    assert (2 ^ 53 <= 2 ^ (Z.pos (digits2_pos p) - 1)) by (apply Z.pow_le_mono_r; lia).
    lia. }
  destruct (num_pos p Hlt) as (m & e & Hnum & He & Hm).
  assert (Hpow : 0 < 2 ^ (- e)) by (apply Z.pow_pos_nonneg; lia).
  assert (Hval : (Qval m e == inject_Z (Z.pos p))%Q).
  { rewrite Qval_Q2, Hm, inject_Z_mult, Q2_Z, <- Qmult_assoc, <- Q2_add by lia.
    replace (- e + e) with 0 by lia. change (Q2 0) with 1%Q. ring. }
  (* the mantissa has 53 bits because [num] yields a valid Number *)
  assert (Hc : canonical m).
  { revert Hnum. unfold num, binary_normalize, binary_round, shl_align, fexp, emin, prec, emax.
    replace (Z.max (Z.pos (digits2_pos p) + 0 - 53) (3 - 1024 - 53) - 0)
      with (Z.pos (digits2_pos p) - 53) by lia.
    replace (Z.max (Z.pos (digits2_pos p) + 0 - 53) (3 - 1024 - 53))
      with (Z.pos (digits2_pos p) - 53) by lia.
    destruct (Z.pos (digits2_pos p) - 53) as [| k | k] eqn:Hk; [| lia |].
    - rewrite binary_round_aux_exact by (unfold prec, emax; lia).
      intros [= <- <-]. unfold canonical. lia.
    - rewrite binary_round_aux_exact by (rewrite ?iter_xO_digits; unfold prec, emax; lia).
      intros [= <- <-]. unfold canonical. rewrite iter_xO_digits. lia. }
  exists m, e. split_and!; [done | done | | lia | done].
  (* -52 <= e: otherwise the value would be below 1 *)
  destruct (Z.le_gt_cases (-52) e) as [| Hsmall]; [done |].
  apply canonical_Q in Hc as [_ Hhi]. rewrite Qval_Q2 in Hval.
  pose proof (Q2_le_mono e (-53) ltac:(lia)) as Hq. pose proof (Q2_pos e).
  change (Q2 (-53)) with (1 # 9007199254740992)%Q in Hq.
  assert (1 <= inject_Z (Z.pos p))%Q
    by (change 1%Q with (inject_Z 1); rewrite <- Zle_Qle; lia).
  nra.
Qed.

(** [Math.max] of two positive integers is the larger integer. *)
Lemma Math_max_num (a b : Z) :
  0 < a < 2 ^ 53 -> 0 < b < 2 ^ 53 -> Math_max (num a) (num b) = num (Z.max a b).
Proof.
  intros Ha Hb.
  destruct (num_pos_normal a Ha) as (ma & ea & Hna & Hca & _ & Hva).
  destruct (num_pos_normal b Hb) as (mb & eb & Hnb & Hcb & _ & Hvb).
  assert (Hmax : Math_max (num a) (num b) = if SFltb (num a) (num b) then num b else num a)
    by (rewrite Hna, Hnb; reflexivity).
  rewrite Hmax. destruct (Z.lt_ge_cases a b) as [Hlt | Hge].
  - rewrite Z.max_r by lia. rewrite Hna, Hnb at 1.
    rewrite (proj2 (SFltb_canonical ma mb ea eb Hca Hcb)); [done |].
    rewrite Hva, Hvb, <- Zlt_Qlt. done.
  - rewrite Z.max_l by lia. rewrite Hna, Hnb at 1.
    destruct (SFltb (S754_finite false ma ea) (S754_finite false mb eb)) eqn:Hcmp; [| done].
    apply SFltb_canonical in Hcmp; [| done | done].
    rewrite Hva, Hvb, <- Zlt_Qlt in Hcmp. lia.
Qed.

(** [Math.round] of a positive normal Number that is not already an
    integer by its exponent: the floor of the value plus one half. *)
Lemma Math_round_floor (m : positive) (e : Z) :
  e < 0 ->
  ∃ n, Math_round (S754_finite false m e) = (if n =? 0 then S754_zero false else num n) ∧
       (inject_Z n <= Qval m e + (1 # 2) ∧ Qval m e + (1 # 2) < inject_Z n + 1)%Q.
Proof.
  intros He. unfold Math_round. destruct (Z.leb_spec 0 e); [lia |]. cbn [cond_Zopp].
  set (n := (2 * Z.pos m + 2 ^ (- e)) / 2 ^ (- e + 1)). exists n. split; [done |].
  assert (Hpow : 0 < 2 ^ (- e)) by (apply Z.pow_pos_nonneg; lia).
  assert (Hpow1 : 2 ^ (- e + 1) = 2 * 2 ^ (- e)) by (rewrite Z.pow_add_r by lia; lia).
  pose proof (Z.mul_div_le (2 * Z.pos m + 2 ^ (- e)) (2 ^ (- e + 1)) ltac:(lia)) as Hlo.
  pose proof (Z.mul_succ_div_gt (2 * Z.pos m + 2 ^ (- e)) (2 ^ (- e + 1)) ltac:(lia)) as Hhi.
  fold n in Hlo, Hhi. rewrite Hpow1 in Hlo, Hhi.
  pose proof (Q2_pos e) as Hq.
  assert (Hinv : (inject_Z (2 ^ (- e)) * Q2 e == 1)%Q).
  { rewrite Q2_Z, <- Q2_add by lia. replace (- e + e) with 0 by lia. reflexivity. }
  assert (HloQ : (inject_Z 2 * inject_Z (2 ^ (- e)) * inject_Z n
                  <= inject_Z 2 * inject_Z (Z.pos m) + inject_Z (2 ^ (- e)))%Q).
  { rewrite <- !inject_Z_mult, <- inject_Z_plus, <- Zle_Qle. lia. }
  assert (HhiQ : (inject_Z 2 * inject_Z (Z.pos m) + inject_Z (2 ^ (- e))
                  < inject_Z 2 * inject_Z (2 ^ (- e)) * (inject_Z n + inject_Z 1))%Q).
  { rewrite <- inject_Z_plus, <- !inject_Z_mult, <- inject_Z_plus, <- Zlt_Qlt. lia. }
  change (inject_Z 2) with 2%Q in *. change (inject_Z 1) with 1%Q in *.
  rewrite Qval_Q2.
  apply (Qmult_le_compat_r _ _ (Q2 e)) in HloQ; [| lra].
  apply (Qmult_lt_compat_r _ _ (Q2 e)) in HhiQ; [| lra].
  assert (H1 : (2 * inject_Z (2 ^ (- e)) * inject_Z n * Q2 e == 2 * inject_Z n)%Q).
  { transitivity (2 * inject_Z n * (inject_Z (2 ^ (- e)) * Q2 e))%Q; [ring |].
    rewrite Hinv. ring. }
  assert (H2 : ((2 * inject_Z (Z.pos m) + inject_Z (2 ^ (- e))) * Q2 e
                == 2 * (inject_Z (Z.pos m) * Q2 e) + 1)%Q).
  { transitivity (2 * (inject_Z (Z.pos m) * Q2 e) + inject_Z (2 ^ (- e)) * Q2 e)%Q; [ring |].
    rewrite Hinv. ring. }
  assert (H3 : (2 * inject_Z (2 ^ (- e)) * (inject_Z n + 1) * Q2 e
                == 2 * (inject_Z n + 1))%Q).
  { transitivity (2 * (inject_Z n + 1) * (inject_Z (2 ^ (- e)) * Q2 e))%Q; [ring |].
    rewrite Hinv. ring. }
  rewrite H1, H2 in HloQ. rewrite H2, H3 in HhiQ. split; lra.
Qed.

(** ** The scale factor and the size constants *)

(** The base constants of lines 39 to 53 with the fields they define. *)
Definition sizeConstants (L : Layout) : list (Z * number) :=
  [ (12, padding L); (10, boxPadding L); (14, titleFontSize L); (11, textFontSize L);
    (10, smallFontSize L); (8, dotSize L); (16, lineHeight L); (6, borderRadius L);
    (240, addressBoxWidth L); (65, addressBoxHeight L); (160, amenitiesBoxWidth L);
    (115, amenitiesBoxHeight L); (200, closestBoxWidth L); (95, closestBoxHeight L) ].

(** The scale of a canvas whose larger side is [m] pixels. *)
Definition scaleOf (m : Z) : number := Math_max (num m / num 1000)%js (num 1).

Lemma layout_scaleOf (W H : Z) :
  0 < W < 2 ^ 53 -> 0 < H < 2 ^ 53 ->
  scale (layout (num W) (num H)) = scaleOf (Z.max W H) ∧
  sizeConstants (layout (num W) (num H))
    = (λ c, (c, Math_round (num c * scaleOf (Z.max W H))%js))
        <$> [12; 10; 14; 11; 10; 8; 16; 6; 240; 65; 160; 115; 200; 95].
Proof.
  intros HW HH. unfold layout, scaleOf, sizeConstants. cbn [scale padding boxPadding
    titleFontSize textFontSize smallFontSize dotSize lineHeight borderRadius
    addressBoxWidth addressBoxHeight amenitiesBoxWidth amenitiesBoxHeight
    closestBoxWidth closestBoxHeight fmap list_fmap].
  by rewrite Math_max_num.
Qed.

(** Up to 1000 pixels the scale is exactly 1. *)
Lemma scaleOf_small (m : Z) : 0 < m <= 1000 -> scaleOf m = num 1.
Proof.
  intros Hm.
  assert (Hall : forallb (λ k, bool_decide (scaleOf k = num 1)) (seqZ 1 1000) = true)
    by (vm_compute; reflexivity).
  rewrite forallb_forall in Hall.
  assert (Hin : In m (seqZ 1 1000)) by (apply list_elem_of_In, elem_of_seqZ; lia).
  apply Hall in Hin. by apply bool_decide_eq_true in Hin.
Qed.

(** Above 1000 pixels the scale is the quotient, a normal Number within
    [ulp1] of [m / 1000]. *)
Lemma scaleOf_large (m : Z) :
  1000 < m < 2 ^ 31 ->
  ∃ ms es, scaleOf m = S754_finite false ms es ∧ canonical ms ∧
           (inject_Z m * (1 # 1000) * (1 - ulp1) <= Qval ms es ∧
            Qval ms es <= inject_Z m * (1 # 1000) * (1 + ulp1))%Q.
Proof.
  intros Hm. unfold scaleOf.
  destruct (num_pos_normal m ltac:(lia)) as (mm & em & -> & Hcm & Hem & Hvm).
  destruct (num_pos_normal 1000 ltac:(lia)) as (mk & ek & -> & Hck & Hek & Hvk).
  destruct (num_pos_normal 1 ltac:(lia)) as (m1 & e1 & -> & Hc1 & He1 & Hv1).
  destruct (div_bounds mm mk em ek (inject_Z m * (1 # 1000)) Hcm Hck ltac:(lia) ltac:(lia))
    as (ms & es & -> & Hcs & Hlo & Hhi).
  { rewrite Hvk, Hvm. change (inject_Z 1000) with (1000 # 1)%Q. field. }
  exists ms, es. split_and!; [| done | done | done].
  change (Math_max (S754_finite false ms es) (S754_finite false m1 e1))
    with (if SFltb (S754_finite false ms es) (S754_finite false m1 e1)
          then S754_finite false m1 e1 else S754_finite false ms es).
  destruct (SFltb (S754_finite false ms es) (S754_finite false m1 e1)) eqn:Hcmp; [| done].
  apply SFltb_canonical in Hcmp; [| done | done]. rewrite Hv1 in Hcmp.
  assert (inject_Z 1001 <= inject_Z m)%Q by (rewrite <- Zle_Qle; lia).
  change (inject_Z 1001) with (1001 # 1)%Q in *. change (inject_Z 1) with 1%Q in *.
  unfold ulp1 in *. lra.
Qed.

(** A size constant of a canvas above 1000 pixels is an integer nearest
    to the base constant times [m / 1000]. *)
Lemma size_nearest (c m : Z) :
  0 < c < 1024 -> 1000 < m < 2 ^ 31 ->
  ∃ n, Math_round (num c * scaleOf m)%js = num n ∧ 0 < n ∧ Z.abs (1000 * n - c * m) <= 500.
Proof.
  intros Hc Hm.
  destruct (scaleOf_large m Hm) as (ms & es & -> & Hcs & Hslo & Hshi).
  destruct (num_pos_normal c ltac:(lia)) as (mc & ec & -> & Hcc & Hec & Hvc).
  (* the exponent of the scale *)
  assert (Hm1 : (inject_Z 1001 <= inject_Z m)%Q) by (rewrite <- Zle_Qle; lia).
  assert (Hm2 : (inject_Z m <= inject_Z (2 ^ 31))%Q) by (rewrite <- Zle_Qle; lia).
  assert (Hc1 : (inject_Z 1 <= inject_Z c)%Q) by (rewrite <- Zle_Qle; lia).
  assert (Hc2 : (inject_Z c <= inject_Z 1024)%Q) by (rewrite <- Zle_Qle; lia).
  change (inject_Z 1001) with (1001 # 1)%Q in *. change (inject_Z 1) with 1%Q in *.
  change (inject_Z (2 ^ 31)) with (2147483648 # 1)%Q in *.
  change (inject_Z 1024) with (1024 # 1)%Q in *.
  pose proof (canonical_Q ms Hcs) as [Hms1 Hms2].
  assert (Hes : -53 <= es <= -30).
  { rewrite Qval_Q2 in Hslo, Hshi. pose proof (Q2_pos es) as Hq. unfold ulp1 in *. split.
    - assert (Hlt : (Q2 (-54) < Q2 es)%Q)
        by (change (Q2 (-54)) with (1 # 18014398509481984)%Q; nra).
      apply Q2_lt_inv in Hlt. lia.
    - assert (Hlt : (Q2 es < Q2 (-29))%Q)
        by (change (Q2 (-29)) with (1 # 536870912)%Q; nra).
      apply Q2_lt_inv in Hlt. lia. }
  destruct (mul_bounds mc ms ec es Hcc Hcs ltac:(lia) ltac:(lia))
    as (mp & ep & -> & Hcp & Hplo & Hphi).
  rewrite Hvc in Hplo, Hphi.
  set (X := (inject_Z c * (inject_Z m * (1 # 1000)))%Q).
  (* the product is within 1/2000 of the exact value *)
  assert (HX : (1 <= X ∧ X <= (2199023255552 # 1000))%Q) by (unfold X; nra).
  assert (Hnear : (X - (1 # 2000) < Qval mp ep ∧ Qval mp ep < X + (1 # 2000))%Q).
  { unfold X, ulp1 in *. set (S := Qval ms es) in *. set (C := inject_Z c) in *.
    set (Mq := inject_Z m) in *. split; nra. }
  pose proof (canonical_Q mp Hcp) as [Hmp1 Hmp2].
  assert (Hep : ep < 0).
  { apply Q2_lt_inv. rewrite Qval_Q2 in Hnear. pose proof (Q2_pos ep).
    change (Q2 0) with 1%Q. nra. }
  destruct (Math_round_floor mp ep Hep) as (n & -> & Hn1 & Hn2).
  assert (Hnpos : 0 < n).
  { rewrite Zlt_Qlt. change (inject_Z 0) with 0%Q. lra. }
  exists n. destruct (Z.eqb_spec n 0); [lia |]. split_and!; [done | done |].
  (* back to integers, on the scale of thousandths *)
  assert (Hup : 2000 * n < 2 * (c * m) + 1001).
  { rewrite Zlt_Qlt, inject_Z_plus, !inject_Z_mult.
    change (inject_Z 2000) with (2000 # 1)%Q. change (inject_Z 2) with 2%Q.
    change (inject_Z 1001) with (1001 # 1)%Q. unfold X in *. lra. }
  assert (Hdown : 2 * (c * m) - 1001 < 2000 * n).
  { rewrite Zlt_Qlt. unfold Z.sub. rewrite inject_Z_plus, !inject_Z_mult.
    change (inject_Z 2000) with (2000 # 1)%Q. change (inject_Z 2) with 2%Q.
    change (inject_Z (- (1001))) with (- (1001 # 1))%Q. unfold X in *. lra. }
  lia.
Qed.

(** X1. On a canvas whose sides are at most 1000 pixels the scale is
    exactly 1 and every size constant is its base constant. *)
Theorem layout_small_canvas (W H : Z) :
  0 < W <= 1000 -> 0 < H <= 1000 ->
  scale (layout (num W) (num H)) = num 1 ∧
  sizeConstants (layout (num W) (num H))
    = (λ c, (c, num c)) <$> [12; 10; 14; 11; 10; 8; 16; 6; 240; 65; 160; 115; 200; 95].
Proof.
  intros HW HH.
  destruct (layout_scaleOf W H ltac:(lia) ltac:(lia)) as [-> ->].
  rewrite scaleOf_small by lia. split; reflexivity.
Qed.

Lemma layout_small_canvas_witness :
  0 < 500 <= 1000 ∧
  scale (layout (num 500) (num 500)) = num 1 ∧
  sizeConstants (layout (num 500) (num 500))
    = (λ c, (c, num c)) <$> [12; 10; 14; 11; 10; 8; 16; 6; 240; 65; 160; 115; 200; 95].
Proof.
  split; [lia |]. exact (layout_small_canvas 500 500 ltac:(lia) ltac:(lia)).
Defined.

(** X2. On every canvas of up to 2^31 pixels a side, each size constant
    is a positive integer nearest to its base constant times
    [max(1, max(W,H) / 1000)], the product being taken exactly: the
    roundings of the quotient and of the product never move the result to
    another integer. *)
Theorem layout_sizes_nearest (W H : Z) :
  0 < W < 2 ^ 31 -> 0 < H < 2 ^ 31 ->
  Forall (λ cv, ∃ n, cv.2 = num n ∧ 0 < n ∧
                     Z.abs (1000 * n - cv.1 * Z.max 1000 (Z.max W H)) <= 500)
         (sizeConstants (layout (num W) (num H))).
Proof.
  intros HW HH.
  destruct (layout_scaleOf W H ltac:(lia) ltac:(lia)) as [_ ->].
  apply Forall_fmap, Forall_forall. intros c Hin. unfold compose. cbv beta. cbn [fst snd].
  assert (Hc : 0 < c < 1024).
  { repeat (apply elem_of_cons in Hin as [-> | Hin]; [lia |]). by apply elem_of_nil in Hin. }
  destruct (Z.le_gt_cases (Z.max W H) 1000) as [Hsmall | Hlarge].
  - rewrite scaleOf_small, Z.max_l by lia. exists c. split_and!; [| lia | lia].
    repeat (apply elem_of_cons in Hin as [-> | Hin]; [reflexivity |]).
    by apply elem_of_nil in Hin.
  - destruct (size_nearest c (Z.max W H) Hc ltac:(lia)) as (n & Hn & Hpos & Habs).
    exists n. split_and!; [done | done |]. by rewrite Z.max_r by lia.
Qed.

Lemma layout_sizes_nearest_witness :
  0 < 2000 < 2 ^ 31 ∧ 0 < 1500 < 2 ^ 31 ∧
  ∃ n, padding (layout (num 2000) (num 1500)) = num n ∧
       Z.abs (1000 * n - 12 * Z.max 1000 (Z.max 2000 1500)) <= 500.
Proof.
  split; [lia |]. split; [lia |].
  pose proof (layout_sizes_nearest 2000 1500 ltac:(lia) ltac:(lia)) as Hall.
  apply Forall_cons in Hall as [(n & Hn & _ & Habs) _]. exists n. split; [exact Hn | exact Habs].
Defined.

(** [Math.max] does not depend on the order of its arguments. *)
Lemma Math_max_comm (a b : number) : Math_max a b = Math_max b a.
Proof.
  destruct a as [sa | sa | | sa ma ea], b as [sb | sb | | sb mb eb];
    try reflexivity; try (destruct sa, sb; reflexivity).
  change (Math_max (S754_finite sa ma ea) (S754_finite sb mb eb))
    with (if SFltb (S754_finite sa ma ea) (S754_finite sb mb eb)
          then S754_finite sb mb eb else S754_finite sa ma ea).
  change (Math_max (S754_finite sb mb eb) (S754_finite sa ma ea))
    with (if SFltb (S754_finite sb mb eb) (S754_finite sa ma ea)
          then S754_finite sa ma ea else S754_finite sb mb eb).
  unfold SFltb, SFcompare. rewrite !Pos.compare_cont_spec. unfold Pos.switch_Eq.
  destruct sa, sb; try reflexivity;
    destruct (Z.compare_spec ea eb), (Z.compare_spec eb ea); try lia; try reflexivity;
    destruct (Pos.compare_spec ma mb), (Pos.compare_spec mb ma);
    subst; try lia; reflexivity.
Qed.

(** X3. The scale factor is [Math.max(1, Math.max(W,H) / 1000)] whatever
    the order of the arguments; it is 1 up to 1000 pixels and, above, a
    Number within a relative error of 2^-52 of [max(W,H) / 1000]. *)
Theorem layout_scale_value (W H : Z) :
  0 < W < 2 ^ 31 -> 0 < H < 2 ^ 31 ->
  scale (layout (num W) (num H)) = Math_max (num 1) (num (Z.max W H) / num 1000)%js ∧
  scale (layout (num W) (num H)) = scale (layout (num H) (num W)) ∧
  (if decide (Z.max W H <= 1000) then scale (layout (num W) (num H)) = num 1
   else ∃ m e, scale (layout (num W) (num H)) = S754_finite false m e ∧
               (inject_Z (Z.max W H) * (1 # 1000) * (1 - ulp1) <= Qval m e ∧
                Qval m e <= inject_Z (Z.max W H) * (1 # 1000) * (1 + ulp1))%Q).
Proof.
  intros HW HH.
  destruct (layout_scaleOf W H ltac:(lia) ltac:(lia)) as [Hs _].
  destruct (layout_scaleOf H W ltac:(lia) ltac:(lia)) as [Hs' _].
  rewrite Hs, Hs', (Z.max_comm H W). split_and!.
  - unfold scaleOf. apply Math_max_comm.
  - reflexivity.
  - destruct (decide (Z.max W H <= 1000)) as [Hsmall | Hlarge].
    + apply scaleOf_small. lia.
    + destruct (scaleOf_large (Z.max W H) ltac:(lia)) as (m & e & Hm & _ & Hb).
      by exists m, e.
Qed.

Lemma layout_scale_value_witness :
  0 < 2000 < 2 ^ 31 ∧ 0 < 1500 < 2 ^ 31 ∧
  scale (layout (num 2000) (num 1500)) = Math_max (num 1) (num (Z.max 2000 1500) / num 1000)%js.
Proof.
  split; [lia |]. split; [lia |].
  exact (proj1 (layout_scale_value 2000 1500 ltac:(lia) ltac:(lia))).
Defined.

(** * The other procedures of the router *)

Import Procedures.

(** ** generateMapUrl *)

Lemma remove_first_hash_spec (before after : jsstring) :
  35%N ∉ before ->
  remove_first_hash (before ++ 35%N :: after) = before ++ after.
Proof.
  induction before as [| c before IH]; intros Hnot; simpl.
  - reflexivity.
  - apply not_elem_of_cons in Hnot as [Hc Hnot].
    destruct (N.eqb_spec c 35) as [-> | _]; [done |]. by rewrite IH.
Qed.

Lemma remove_first_hash_none (text : jsstring) : 35%N ∉ text -> remove_first_hash text = text.
Proof.
  induction text as [| c text IH]; intros Hnot; simpl; [done |].
  apply not_elem_of_cons in Hnot as [Hc Hnot].
  destruct (N.eqb_spec c 35) as [-> | _]; [done |]. by rewrite IH.
Qed.

(** X4. [generateMapUrl] fails exactly when MAPBOX_ACCESS_TOKEN is unset
    or empty, with "Mapbox access token not configured"; otherwise it
    returns a URL of the Mapbox static-image endpoint that ends with the
    access token itself. *)
Theorem generateMapUrl_token (env : gmap jsstring jsstring) (inp : MapInput) :
  if decide (default [] (env !! lit "MAPBOX_ACCESS_TOKEN") = [])
  then generateMapUrl env inp = Throw (new_Error (lit "Mapbox access token not configured"))
  else ∃ path,
    generateMapUrl env inp
      = Ok (lit "https://api.mapbox.com/styles/v1/mapbox/streets-v12/static/" ++ path ++
            lit "@2x?access_token=" ++ default [] (env !! lit "MAPBOX_ACCESS_TOKEN")).
Proof.
  unfold generateMapUrl, MAPBOX_ACCESS_TOKEN. rewrite env_or_empty_lookup.
  destruct (decide (default [] (env !! lit "MAPBOX_ACCESS_TOKEN") = [])) as [-> | Hset].
  - reflexivity.
  - destruct (default [] (env !! lit "MAPBOX_ACCESS_TOKEN")) as [| c token] eqn:Htoken; [done |].
    cbn [truthy_string negb]. eexists. apply f_equal. apply (f_equal (app _)).
    repeat first [ exact eq_refl | apply peel ].
Qed.

(** X5. Only the first 100 markers reach the URL: whatever follows them
    in the request changes nothing. *)
Theorem generateMapUrl_marker_limit (env : gmap jsstring jsstring) (inp : MapInput)
    (extra : list Marker) :
  (100 ≤ length (map_markers inp))%nat ->
  generateMapUrl env
    {| map_lat := map_lat inp; map_lng := map_lng inp; map_zoom := map_zoom inp;
       map_width := map_width inp; map_height := map_height inp;
       map_markers := map_markers inp ++ extra |}
  = generateMapUrl env inp.
Proof.
  intros Hlen. unfold generateMapUrl, markerOverlays. cbn [map_lat map_lng map_zoom
    map_width map_height map_markers].
  by rewrite take_app_le by lia.
Qed.

Lemma generateMapUrl_marker_limit_witness :
  (100 ≤ length (replicate 100 home_marker))%nat ∧
  generateMapUrl configured
    {| map_lat := num 40; map_lng := num (-74); map_zoom := num 14;
       map_width := num 640; map_height := num 480;
       map_markers := replicate 100 home_marker ++ [home_marker] |}
  = generateMapUrl configured
    {| map_lat := num 40; map_lng := num (-74); map_zoom := num 14;
       map_width := num 640; map_height := num 480;
       map_markers := replicate 100 home_marker |}.
Proof.
  split; [rewrite length_replicate; lia |].
  apply (generateMapUrl_marker_limit configured
           {| map_lat := num 40; map_lng := num (-74); map_zoom := num 14;
              map_width := num 640; map_height := num 480;
              map_markers := replicate 100 home_marker |} [home_marker]).
  cbn [map_markers]. rewrite length_replicate. lia.
Defined.

(** X6. A marker becomes [pin-<size>-<label>+<color>(<lng>,<lat>)]: the
    size is [l] exactly for the label "home" and [m] otherwise, a missing
    label is the empty text, and the colour loses its first number sign
    and only that one. *)
Theorem markerOverlay_text (m : Marker) (before after : jsstring) :
  marker_color m = before ++ 35%N :: after -> 35%N ∉ before ->
  markerOverlay m
    = lit "pin-" ++
      (if decide (marker_label m = Some (lit "home")) then lit "l" else lit "m") ++
      lit "-" ++ default [] (marker_label m) ++ lit "+" ++ (before ++ after) ++
      lit "(" ++ NumberToString (marker_lng m) ++ lit "," ++
      NumberToString (marker_lat m) ++ lit ")".
Proof.
  intros Hcolor Hnot. unfold markerOverlay, label_or_empty.
  rewrite Hcolor, remove_first_hash_spec by done.
  destruct (marker_label m) as [l |]; cbn [default].
  - destruct (decide (l = lit "home")) as [-> | Hne].
    + rewrite bool_decide_eq_true_2, decide_True by done. reflexivity.
    + rewrite bool_decide_eq_false_2, decide_False by congruence. by destruct l.
  - rewrite decide_False by done. reflexivity.
Qed.

Lemma markerOverlay_text_witness :
  marker_color home_marker = [] ++ 35%N :: lit "1E40AF" ∧
  markerOverlay home_marker = lit "pin-l-home+1E40AF(-74,40)".
Proof.
  split; [reflexivity |].
  rewrite (markerOverlay_text home_marker [] (lit "1E40AF") eq_refl (not_elem_of_nil _)).
  reflexivity.
Defined.

(** ** [map] over an array, with a callback that may throw *)

Lemma mapM_result_ok {A B} (f : A -> result B) (items : list A) (out : list B) :
  mapM f items = Ok out <-> Forall2 (λ x y, f x = Ok y) items out.
Proof.
  revert out. induction items as [| x items IH]; intros out; simpl.
  - split.
    + intros [= <-]. constructor.
    + intros Hall. by inversion Hall.
  - unfold mbind, result_bind at 1. destruct (f x) as [y | e] eqn:Hx.
    + unfold mbind, result_bind at 1. destruct (mapM f items) as [ys | e] eqn:Hrest.
      * split.
        -- intros [= <-]. constructor; [done |]. by apply IH.
        -- intros Hall. inversion Hall as [| ? y' ? ys' Hy Hys]; subst.
           rewrite Hx in Hy. injection Hy as <-. apply IH in Hys. by injection Hys as <-.
      * split; [done |]. intros Hall. inversion Hall as [| ? y' ? ys' Hy Hys]; subst.
        apply IH in Hys. done.
    + split; [done |]. intros Hall. inversion Hall as [| ? y' ? ys' Hy Hys]; subst.
      rewrite Hx in Hy. done.
Qed.

Lemma mapM_result_throw {A B} (f : A -> result B) (items : list A) (e : exn) :
  mapM f items = Throw e <->
  ∃ before x after, items = before ++ x :: after ∧
                    Forall (λ y, ∃ z, f y = Ok z) before ∧ f x = Throw e.
Proof.
  induction items as [| x items IH]; simpl.
  - split; [done |]. intros (before & y & after & Heq & _). by destruct before.
  - unfold mbind, result_bind at 1. destruct (f x) as [y | e'] eqn:Hx.
    + unfold mbind, result_bind at 1. destruct (mapM f items) as [ys | e''] eqn:Hrest.
      * split; [done |]. intros (before & x' & after & Heq & Hbefore & Hthrow).
        destruct before as [| b before]; simpl in Heq; injection Heq as <- ->.
        -- rewrite Hx in Hthrow. done.
        -- apply Forall_cons in Hbefore as [_ Hbefore].
           assert (Habs : @Ok (list B) ys = Throw e); [| done].
           apply IH. by exists before, x', after.
      * split.
        -- intros [= ->]. destruct (proj1 IH eq_refl) as (before & x' & after & -> & Hb & Ht).
           exists (x :: before), x', after. split_and!; [done | | done].
           constructor; [by exists y | done].
        -- intros (before & x' & after & Heq & Hbefore & Hthrow).
           destruct before as [| b before]; simpl in Heq; injection Heq as <- ->.
           ++ rewrite Hx in Hthrow. done.
           ++ apply Forall_cons in Hbefore as [_ Hbefore]. apply IH.
              by exists before, x', after.
    + split.
      * intros [= ->]. exists [], x, items. split_and!; [done | constructor | done].
      * intros (before & x' & after & Heq & Hbefore & Hthrow).
        destruct before as [| b before]; simpl in Heq; injection Heq as <- ->.
        -- rewrite Hx in Hthrow. by injection Hthrow as ->.
        -- apply Forall_cons in Hbefore as [[z Hz] _]. rewrite Hx in Hz. done.
Qed.

(** ** getAddressSuggestions *)

Section ProcedureProperties.
Context `{P : Platform}.
Context (env : gmap jsstring jsstring).

Definition autocompleteRequest (input : jsstring) : Request :=
  {| url := lit "https://maps.googleapis.com/maps/api/place/autocomplete/json";
     params := [ (lit "input", JString input);
                 (lit "types", JString (lit "address"));
                 (lit "key", JString (GOOGLE_PLACES_API_KEY env)) ] |}.

Definition geocodeRequest (address : jsstring) : Request :=
  {| url := lit "https://maps.googleapis.com/maps/api/geocode/json";
     params := [ (lit "address", JString address);
                 (lit "key", JString (GOOGLE_PLACES_API_KEY env)) ] |}.

Definition nearbyRequest (inp : NearbyInput) : Request :=
  {| url := lit "https://maps.googleapis.com/maps/api/place/nearbysearch/json";
     params := [ (lit "location",
                  JString (NumberToString (near_lat inp) ++ lit "," ++
                           NumberToString (near_lng inp)));
                 (lit "radius", JNumber (near_radius inp));
                 (lit "type", JString (near_type inp));
                 (lit "key", JString (GOOGLE_PLACES_API_KEY env)) ] |}.

Lemma key_missing :
  default [] (env !! lit "GOOGLE_PLACES_API_KEY") = [] ->
  truthy_string (GOOGLE_PLACES_API_KEY env) = false.
Proof. unfold GOOGLE_PLACES_API_KEY. rewrite env_or_empty_lookup. by intros ->. Qed.

Lemma key_present :
  default [] (env !! lit "GOOGLE_PLACES_API_KEY") ≠ [] ->
  truthy_string (GOOGLE_PLACES_API_KEY env) = true.
Proof.
  unfold GOOGLE_PLACES_API_KEY. rewrite env_or_empty_lookup.
  by destruct (default [] (env !! lit "GOOGLE_PLACES_API_KEY")).
Qed.

(** X7. Without a Google key, or for an input of fewer than three code
    units, [getAddressSuggestions] answers with no suggestion and does
    nothing else: no request is sent and nothing is written to the
    console. *)
Theorem getAddressSuggestions_guard (input : jsstring) (w : World) :
  default [] (env !! lit "GOOGLE_PLACES_API_KEY") = [] ∨ (length input < 3)%nat ->
  getAddressSuggestions env input w = ([], w).
Proof.
  intros Hguard. unfold getAddressSuggestions.
  destruct Hguard as [Hkey | Hshort].
  - by rewrite key_missing.
  - destruct (Nat.ltb_spec (length input) 3); [| lia]. by rewrite orb_true_r.
Qed.

(** X8. Past the guard, [getAddressSuggestions] sends exactly one request,
    to the autocomplete endpoint with the input and the key, and never
    fails: when the request is rejected, or the response has not the
    expected shape, the answer is the empty list and the error is written
    once to the console; otherwise the console is left as it was. *)
Theorem getAddressSuggestions_contains_failures (input : jsstring) (w : World) :
  default [] (env !! lit "GOOGLE_PLACES_API_KEY") ≠ [] -> (3 ≤ length input)%nat ->
  sent (getAddressSuggestions env input w).2 = sent w ++ [autocompleteRequest input] ∧
  ((∃ err, (getAddressSuggestions env input w).1 = [] ∧
           console (getAddressSuggestions env input w).2
             = console w ++ [ {| label := lit "Autocomplete error:"; logged := err |} ]) ∨
   console (getAddressSuggestions env input w).2 = console w) ∧
  (∀ err, axios_get (autocompleteRequest input) = Throw err ->
          getAddressSuggestions env input w
            = ([], {| sent := sent w ++ [autocompleteRequest input];
                      console := console w ++
                        [ {| label := lit "Autocomplete error:"; logged := err |} ] |})).
Proof.
  intros Hkey Hlong. unfold getAddressSuggestions.
  rewrite key_present by done. destruct (Nat.ltb_spec (length input) 3); [lia |].
  cbn [negb orb]. unfold get. fold (autocompleteRequest input).
  destruct (axios_get (autocompleteRequest input)) as [data | err] eqn:Hresp;
    cbn [mbind result_bind].
  - split_and!.
    + by destruct (_ ≫= _).
    + destruct (_ ≫= _) as [suggestions | err]; [by right |]. left. by exists err.
    + done.
  - split_and!; [done | left; by exists err |]. by intros err' [= <-].
Qed.

(** X9. When the response body is an object whose [predictions] is an
    array of objects, there is one suggestion for each prediction, in the
    same order, holding its [place_id] and [description] ([undefined] for
    an absent one), and nothing is written to the console. *)
Theorem getAddressSuggestions_maps_predictions (input : jsstring) (w : World)
    (body : list (jsstring * json)) (predictions : list (list (jsstring * json))) :
  default [] (env !! lit "GOOGLE_PLACES_API_KEY") ≠ [] -> (3 ≤ length input)%nat ->
  axios_get (autocompleteRequest input) = Ok (JObject body) ->
  own (lit "predictions") body = Some (JArray (JObject <$> predictions)) ->
  getAddressSuggestions env input w
    = ((λ fields, {| placeId := default JUndefined (own (lit "place_id") fields);
                     description := default JUndefined (own (lit "description") fields) |})
         <$> predictions,
       {| sent := sent w ++ [autocompleteRequest input]; console := console w |}).
Proof.
  intros Hkey Hlong Hresp Hpred. unfold getAddressSuggestions.
  rewrite key_present by done. destruct (Nat.ltb_spec (length input) 3); [lia |].
  cbn [negb orb]. unfold get. fold (autocompleteRequest input). rewrite Hresp.
  cbn [mbind result_bind read prop_name]. rewrite Hpred. cbn [from_option id call_map].
  match goal with |- context [mapM ?f ?l] =>
    assert (Hmap : mapM f l = Ok ((λ fields,
      {| placeId := default JUndefined (own (lit "place_id") fields);
         description := default JUndefined (own (lit "description") fields) |})
      <$> predictions)) end.
  { apply mapM_result_ok. apply Forall2_fmap. apply Forall2_same_length_lookup_2.
    - done.
    - intros i x y Hx Hy. rewrite Hx in Hy. by injection Hy as <-. }
  unfold mbind in Hmap |- *. by rewrite Hmap.
Qed.

(** ** geocodeAddress and searchNearbyPOIs *)

(** X10. Without a Google key, [geocodeAddress] and [searchNearbyPOIs]
    throw "Google Places API key not configured" and send no request. *)
Theorem google_procedures_need_key (address : jsstring) (inp : NearbyInput) (w : World) :
  default [] (env !! lit "GOOGLE_PLACES_API_KEY") = [] ->
  geocodeAddress env address w
    = (Throw (new_Error (lit "Google Places API key not configured")), w) ∧
  searchNearbyPOIs env inp w
    = (Throw (new_Error (lit "Google Places API key not configured")), w).
Proof.
  intros Hkey. unfold geocodeAddress, searchNearbyPOIs. by rewrite key_missing.
Qed.

(** X11. When Google answers with a status other than "OK",
    [geocodeAddress] throws "Geocoding failed: <status>", whatever else
    the response holds. *)
Theorem geocodeAddress_status (address : jsstring) (w : World)
    (body : list (jsstring * json)) (status : jsstring) :
  default [] (env !! lit "GOOGLE_PLACES_API_KEY") ≠ [] ->
  axios_get (geocodeRequest address) = Ok (JObject body) ->
  own (lit "status") body = Some (JString status) -> status ≠ lit "OK" ->
  to_text (JString status) = Ok status ->
  geocodeAddress env address w
    = (Throw (new_Error (lit "Geocoding failed: " ++ status)),
       {| sent := sent w ++ [geocodeRequest address]; console := console w |}).
Proof.
  intros Hkey Hresp Hstatus Hne Htext. unfold geocodeAddress.
  rewrite key_present by done. cbn [negb]. unfold get. fold (geocodeRequest address).
  rewrite Hresp. cbn [mbind result_bind read prop_name]. rewrite Hstatus.
  cbn [from_option id differs_from]. rewrite bool_decide_eq_false_2 by done.
  cbn [negb mret result_ret]. by rewrite Htext.
Qed.

(** X12. When the status is "OK" but the list of results is empty,
    [geocodeAddress] throws "Geocoding failed: OK". *)
Theorem geocodeAddress_no_result (address : jsstring) (w : World)
    (body : list (jsstring * json)) :
  default [] (env !! lit "GOOGLE_PLACES_API_KEY") ≠ [] ->
  axios_get (geocodeRequest address) = Ok (JObject body) ->
  own (lit "status") body = Some (JString (lit "OK")) ->
  own (lit "results") body = Some (JArray []) ->
  to_text (JString (lit "OK")) = Ok (lit "OK") ->
  geocodeAddress env address w
    = (Throw (new_Error (lit "Geocoding failed: OK")),
       {| sent := sent w ++ [geocodeRequest address]; console := console w |}).
Proof.
  intros Hkey Hresp Hstatus Hresults Htext. unfold geocodeAddress.
  rewrite key_present by done. cbn [negb]. unfold get. fold (geocodeRequest address).
  rewrite Hresp. cbn [mbind result_bind read prop_name]. rewrite Hstatus, Hresults.
  cbn [from_option id differs_from]. rewrite bool_decide_eq_true_2 by done.
  cbn [negb mbind result_bind mret result_ret read length truthy_json].
  change (truthy_number (num (Z.of_nat 0))) with false. cbn [negb].
  by rewrite Htext.
Qed.

(** X13. When the status is "OK" and there are results (an array has
    fewer than 2^32 elements), [geocodeAddress] returns the [lat] and [lng]
    of the location of the first result; the other results do not
    matter. *)
Theorem geocodeAddress_first_result (address : jsstring) (w : World)
    (body first geometry location : list (jsstring * json)) (others : list json) :
  default [] (env !! lit "GOOGLE_PLACES_API_KEY") ≠ [] ->
  axios_get (geocodeRequest address) = Ok (JObject body) ->
  own (lit "status") body = Some (JString (lit "OK")) ->
  own (lit "results") body = Some (JArray (JObject first :: others)) ->
  Z.of_nat (length others) < 2 ^ 32 - 1 ->
  own (lit "geometry") first = Some (JObject geometry) ->
  own (lit "location") geometry = Some (JObject location) ->
  geocodeAddress env address w
    = (Ok {| lat := default JUndefined (own (lit "lat") location);
             lng := default JUndefined (own (lit "lng") location) |},
       {| sent := sent w ++ [geocodeRequest address]; console := console w |}).
Proof.
  intros Hkey Hresp Hstatus Hresults Hbound Hgeometry Hlocation. unfold geocodeAddress.
  rewrite key_present by done. cbn [negb]. unfold get. fold (geocodeRequest address).
  rewrite Hresp. cbn [mbind result_bind read prop_name]. rewrite Hstatus, Hresults.
  cbn [from_option id differs_from]. rewrite bool_decide_eq_true_2 by done.
  cbn [negb mbind result_bind mret result_ret read truthy_json].
  assert (Hcount : truthy_number (num (Z.of_nat (length (JObject first :: others)))) = true).
  { apply num_pos_prints. cbn [length]. lia. }
  rewrite Hcount. cbn [negb head from_option id read mbind result_bind prop_name].
  rewrite Hgeometry. cbn [from_option id read mbind result_bind prop_name].
  rewrite Hlocation. reflexivity.
Qed.

(** X14. [searchNearbyPOIs] converts the results in order and returns
    all of them or none: the call succeeds exactly when every result
    converts, and then holds one place for each result; otherwise it throws
    the error of the first result that does not convert. *)
Theorem searchNearbyPOIs_all_or_nothing (inp : NearbyInput) (w : World)
    (body : list (jsstring * json)) (items : list json) :
  default [] (env !! lit "GOOGLE_PLACES_API_KEY") ≠ [] ->
  axios_get (nearbyRequest inp) = Ok (JObject body) ->
  own (lit "results") body = Some (JArray items) ->
  (searchNearbyPOIs env inp w).2
    = {| sent := sent w ++ [nearbyRequest inp]; console := console w |} ∧
  (∀ places, (searchNearbyPOIs env inp w).1 = Ok places
             <-> Forall2 (λ item place, toPlace item = Ok place) items places) ∧
  (∀ err, (searchNearbyPOIs env inp w).1 = Throw err
          <-> ∃ before item after,
                items = before ++ item :: after ∧
                Forall (λ earlier, ∃ place, toPlace earlier = Ok place) before ∧
                toPlace item = Throw err).
Proof.
  intros Hkey Hresp Hresults.
  assert (Hcall : searchNearbyPOIs env inp w
                  = (mapM toPlace items,
                     {| sent := sent w ++ [nearbyRequest inp]; console := console w |})).
  { unfold searchNearbyPOIs. rewrite key_present by done. cbn [negb]. unfold get.
    fold (nearbyRequest inp). rewrite Hresp. cbn [mbind result_bind read prop_name].
    rewrite Hresults. reflexivity. }
  rewrite Hcall. cbn [fst snd]. split_and!; [done | |].
  - intros places. apply mapM_result_ok.
  - intros err. apply mapM_result_throw.
Qed.

(** X15. A result that is an object with a geometry whose location is an
    object converts to a place with its name, the [lat] and [lng] of that
    location, and its vicinity, rating and types, [undefined] standing for
    whatever is absent. *)
Theorem toPlace_fields (fields geometry location : list (jsstring * json)) :
  own (lit "geometry") fields = Some (JObject geometry) ->
  own (lit "location") geometry = Some (JObject location) ->
  toPlace (JObject fields)
    = Ok {| place_name := default JUndefined (own (lit "name") fields);
            place_lat := default JUndefined (own (lit "lat") location);
            place_lng := default JUndefined (own (lit "lng") location);
            place_vicinity := default JUndefined (own (lit "vicinity") fields);
            place_rating := default JUndefined (own (lit "rating") fields);
            place_types := default JUndefined (own (lit "types") fields) |}.
Proof.
  intros Hgeometry Hlocation. unfold toPlace.
  cbn [mbind result_bind read prop_name]. rewrite Hgeometry.
  cbn [from_option id mbind result_bind read prop_name]. rewrite Hlocation. reflexivity.
Qed.

(** X16. One result without a [geometry] is enough to make the whole
    search fail: [searchNearbyPOIs] throws and returns none of the other
    places. *)
Theorem searchNearbyPOIs_missing_geometry (inp : NearbyInput) (w : World)
    (body : list (jsstring * json)) (items : list json) (fields : list (jsstring * json)) :
  default [] (env !! lit "GOOGLE_PLACES_API_KEY") ≠ [] ->
  axios_get (nearbyRequest inp) = Ok (JObject body) ->
  own (lit "results") body = Some (JArray items) ->
  JObject fields ∈ items -> own (lit "geometry") fields = None ->
  ∃ err, (searchNearbyPOIs env inp w).1 = Throw err.
Proof.
  intros Hkey Hresp Hresults Hin Hgeometry.
  assert (Hcall : (searchNearbyPOIs env inp w).1 = mapM toPlace items).
  { unfold searchNearbyPOIs. rewrite key_present by done. cbn [negb]. unfold get.
    fold (nearbyRequest inp). rewrite Hresp. cbn [mbind result_bind read prop_name].
    rewrite Hresults. reflexivity. }
  rewrite Hcall. destruct (mapM toPlace items) as [places | err] eqn:Hmap; [| by exists err].
  apply mapM_result_ok in Hmap.
  apply list_elem_of_lookup in Hin as [i Hi].
  destruct (Forall2_lookup_l _ _ _ _ _ Hmap Hi) as (place & _ & Hplace).
  unfold toPlace in Hplace. cbn [mbind result_bind read prop_name] in Hplace.
  rewrite Hgeometry in Hplace. done.
Qed.

End ProcedureProperties.

(** ** The procedures on a sample platform *)

Lemma configured_key :
  default [] (configured !! lit "GOOGLE_PLACES_API_KEY") = lit "g-key".
Proof. unfold configured. by rewrite lookup_insert_eq. Qed.

Lemma configured_has_key :
  default [] (configured !! lit "GOOGLE_PLACES_API_KEY") ≠ [].
Proof. by rewrite configured_key. Qed.

Lemma getAddressSuggestions_guard_witness :
  getAddressSuggestions (H := answering (Ok JNull)) configured (lit "12") quiet = ([], quiet).
Proof.
  apply (getAddressSuggestions_guard (P := answering (Ok JNull)) configured (lit "12") quiet).
  right. simpl. lia.
Defined.

Definition rejected : exn := new_Error (lit "Network Error").

Lemma getAddressSuggestions_contains_failures_witness :
  getAddressSuggestions (H := answering (Throw rejected)) configured (lit "12 Main") quiet
  = ([], {| sent := [autocompleteRequest configured (lit "12 Main")];
            console := [ {| label := lit "Autocomplete error:"; logged := rejected |} ] |}).
Proof.
  apply (getAddressSuggestions_contains_failures
           (P := answering (Throw rejected)) configured (lit "12 Main") quiet).
  - exact configured_has_key.
  - simpl. lia.
  - reflexivity.
Defined.

Definition main_street : list (jsstring * json) :=
  [ (lit "description", JString (lit "12 Main St")); (lit "place_id", JString (lit "p1")) ].

Definition predicted : json :=
  JObject [ (lit "predictions", JArray [JObject main_street; JObject []]);
            (lit "status", JString (lit "OK")) ].

Lemma getAddressSuggestions_maps_predictions_witness :
  getAddressSuggestions (H := answering (Ok predicted)) configured (lit "12 Main") quiet
  = ([ {| placeId := JString (lit "p1"); description := JString (lit "12 Main St") |};
       {| placeId := JUndefined; description := JUndefined |} ],
     {| sent := [autocompleteRequest configured (lit "12 Main")]; console := [] |}).
Proof.
  apply (getAddressSuggestions_maps_predictions
           (P := answering (Ok predicted)) configured (lit "12 Main") quiet
           [ (lit "predictions", JArray [JObject main_street; JObject []]);
             (lit "status", JString (lit "OK")) ]
           [main_street; []]).
  - exact configured_has_key.
  - simpl. lia.
  - reflexivity.
  - reflexivity.
Defined.

Definition midtown : NearbyInput :=
  {| near_lat := num 40; near_lng := num (-74); near_radius := num 1609;
     near_type := lit "restaurant" |}.

Lemma google_procedures_need_key_witness :
  geocodeAddress (H := answering (Ok JNull)) ∅ (lit "12 Main St") quiet
    = (Throw (new_Error (lit "Google Places API key not configured")), quiet) ∧
  searchNearbyPOIs (H := answering (Ok JNull)) ∅ midtown quiet
    = (Throw (new_Error (lit "Google Places API key not configured")), quiet).
Proof.
  exact (google_procedures_need_key (P := answering (Ok JNull)) ∅ (lit "12 Main St")
           midtown quiet eq_refl).
Defined.

Definition no_match : list (jsstring * json) :=
  [ (lit "results", JArray []); (lit "status", JString (lit "ZERO_RESULTS")) ].

Lemma geocodeAddress_status_witness :
  geocodeAddress (H := answering (Ok (JObject no_match))) configured (lit "nowhere") quiet
  = (Throw (new_Error (lit "Geocoding failed: ZERO_RESULTS")),
     {| sent := [geocodeRequest configured (lit "nowhere")]; console := [] |}).
Proof.
  apply (geocodeAddress_status (P := answering (Ok (JObject no_match))) configured
           (lit "nowhere") quiet no_match (lit "ZERO_RESULTS")).
  - exact configured_has_key.
  - reflexivity.
  - reflexivity.
  - vm_compute. discriminate.
  - reflexivity.
Defined.

Definition ok_but_empty : list (jsstring * json) :=
  [ (lit "results", JArray []); (lit "status", JString (lit "OK")) ].

Lemma geocodeAddress_no_result_witness :
  geocodeAddress (H := answering (Ok (JObject ok_but_empty))) configured (lit "nowhere") quiet
  = (Throw (new_Error (lit "Geocoding failed: OK")),
     {| sent := [geocodeRequest configured (lit "nowhere")]; console := [] |}).
Proof.
  apply (geocodeAddress_no_result (P := answering (Ok (JObject ok_but_empty))) configured
           (lit "nowhere") quiet ok_but_empty).
  - exact configured_has_key.
  - reflexivity.
  - reflexivity.
  - reflexivity.
  - reflexivity.
Defined.

Definition here : list (jsstring * json) :=
  [ (lit "lat", JNumber (num 40)); (lit "lng", JNumber (num (-74))) ].

Definition main_street_result : list (jsstring * json) :=
  [ (lit "formatted_address", JString (lit "12 Main St"));
    (lit "geometry", JObject [ (lit "location", JObject here) ]) ].

Definition geocoded : list (jsstring * json) :=
  [ (lit "results", JArray [JObject main_street_result; JNull]);
    (lit "status", JString (lit "OK")) ].

Lemma geocodeAddress_first_result_witness :
  geocodeAddress (H := answering (Ok (JObject geocoded))) configured (lit "12 Main St") quiet
  = (Ok {| lat := JNumber (num 40); lng := JNumber (num (-74)) |},
     {| sent := [geocodeRequest configured (lit "12 Main St")]; console := [] |}).
Proof.
  apply (geocodeAddress_first_result (P := answering (Ok (JObject geocoded))) configured
           (lit "12 Main St") quiet geocoded main_street_result
           [ (lit "location", JObject here) ] here [JNull]).
  - exact configured_has_key.
  - reflexivity.
  - reflexivity.
  - reflexivity.
  - simpl. lia.
  - reflexivity.
  - reflexivity.
Defined.

Definition corner_cafe : list (jsstring * json) :=
  [ (lit "name", JString (lit "Corner Cafe"));
    (lit "geometry", JObject [ (lit "location", JObject here) ]);
    (lit "rating", JNumber (num 4)) ].

Definition unplaced : list (jsstring * json) :=
  [ (lit "name", JString (lit "Pop-up")) ].

Lemma toPlace_fields_witness :
  toPlace (H := answering (Ok JNull)) (JObject corner_cafe)
  = Ok {| place_name := JString (lit "Corner Cafe");
          place_lat := JNumber (num 40); place_lng := JNumber (num (-74));
          place_vicinity := JUndefined; place_rating := JNumber (num 4);
          place_types := JUndefined |}.
Proof.
  apply (toPlace_fields (P := answering (Ok JNull)) corner_cafe
           [ (lit "location", JObject here) ] here).
  - reflexivity.
  - reflexivity.
Defined.

Definition nearby (items : list json) : list (jsstring * json) :=
  [ (lit "results", JArray items); (lit "status", JString (lit "OK")) ].

Lemma searchNearbyPOIs_all_or_nothing_witness :
  (searchNearbyPOIs (H := answering (Ok (JObject (nearby [JObject corner_cafe]))))
     configured midtown quiet).2
  = {| sent := [nearbyRequest configured midtown]; console := [] |}.
Proof.
  apply (searchNearbyPOIs_all_or_nothing
           (P := answering (Ok (JObject (nearby [JObject corner_cafe]))))
           configured midtown quiet (nearby [JObject corner_cafe]) [JObject corner_cafe]).
  - exact configured_has_key.
  - reflexivity.
  - reflexivity.
Defined.

Lemma searchNearbyPOIs_missing_geometry_witness :
  ∃ err,
    (searchNearbyPOIs
       (H := answering (Ok (JObject (nearby [JObject corner_cafe; JObject unplaced]))))
       configured midtown quiet).1 = Throw err.
Proof.
  apply (searchNearbyPOIs_missing_geometry
           (P := answering (Ok (JObject (nearby [JObject corner_cafe; JObject unplaced]))))
           configured midtown quiet (nearby [JObject corner_cafe; JObject unplaced])
           [JObject corner_cafe; JObject unplaced] unplaced).
  - exact configured_has_key.
  - reflexivity.
  - reflexivity.
  - apply list_elem_of_further, list_elem_of_here.
  - reflexivity.
Defined.

(** * The geometry of the boxes *)

Lemma round_times_one (c : Z) : 0 < c < 1024 -> Math_round (num c * num 1)%js = num c.
Proof.
  intros Hc.
  assert (Hall : forallb (λ k, bool_decide (Math_round (num k * num 1)%js = num k))
                         (seqZ 1 1023) = true)
    by (vm_compute; reflexivity).
  rewrite forallb_forall in Hall.
  assert (Hin : In c (seqZ 1 1023)) by (apply list_elem_of_In, elem_of_seqZ; lia).
  apply Hall in Hin. by apply bool_decide_eq_true in Hin.
Qed.

(** The size constant of base [c] on a canvas whose larger side is [m]. *)
Lemma size_value (c m : Z) :
  0 < c < 1024 -> 0 < m < 2 ^ 31 ->
  ∃ n, Math_round (num c * scaleOf m)%js = num n ∧ 0 < n ∧
       Z.abs (1000 * n - c * Z.max 1000 m) <= 500.
Proof.
  intros Hc Hm. destruct (Z.le_gt_cases m 1000) as [Hsmall | Hlarge].
  - rewrite scaleOf_small, Z.max_l by lia. exists c. rewrite round_times_one by done. split_and!; [done | lia | lia].
  - destruct (size_nearest c m Hc ltac:(lia)) as (n & Hn & Hpos & Habs).
    exists n. rewrite Z.max_r by lia. done.
Qed.

(** The layout of a canvas in terms of its larger side. *)
Lemma layout_of_scaleOf (W H : Z) :
  0 < W < 2 ^ 53 -> 0 < H < 2 ^ 53 ->
  layout (num W) (num H)
  = let s := scaleOf (Z.max W H) in
    {| scale := s;
       padding := Math_round (num 12 * s)%js;
       boxPadding := Math_round (num 10 * s)%js;
       titleFontSize := Math_round (num 14 * s)%js;
       textFontSize := Math_round (num 11 * s)%js;
       smallFontSize := Math_round (num 10 * s)%js;
       dotSize := Math_round (num 8 * s)%js;
       lineHeight := Math_round (num 16 * s)%js;
       borderRadius := Math_round (num 6 * s)%js;
       addressBoxWidth := Math_round (num 240 * s)%js;
       addressBoxHeight := Math_round (num 65 * s)%js;
       amenitiesBoxWidth := Math_round (num 160 * s)%js;
       amenitiesBoxHeight := Math_round (num 115 * s)%js;
       closestBoxWidth := Math_round (num 200 * s)%js;
       closestBoxHeight := Math_round (num 95 * s)%js |}.
Proof.
  intros HW HH. unfold layout, scaleOf. cbv zeta. by rewrite Math_max_num.
Qed.

(** C4. For a canvas of [W] by [H] pixels the scale is
    [Math.max(Math.max(W, H) / 1000, 1)]: it is 1 up to 1000 pixels (so for
    500 by 500), 2 for 2000 by 1500, and in general the Number nearest to
    [max(W,H) / 1000]. Each of the fourteen size constants is
    [Math.round] of its base constant times the scale, and is a positive
    integer within one half of the exact product of the base constant and
    [max(1, max(W,H) / 1000)]. The generated document is laid out with
    these constants. *)
Theorem layout_scaling (address : jsstring) (radiusMiles : number) (stats : Stats)
    (closestPOIs : list POI) (W H : Z) :
  0 < W < 2 ^ 31 -> 0 < H < 2 ^ 31 ->
  let L := layout (num W) (num H) in
  scale L = Math_max (num (Z.max W H) / num 1000)%js (num 1) ∧
  (if decide (Z.max W H <= 1000) then scale L = num 1
   else ∃ m e, scale L = S754_finite false m e ∧
               (inject_Z (Z.max W H) * (1 # 1000) * (1 - ulp1) <= Qval m e ∧
                Qval m e <= inject_Z (Z.max W H) * (1 # 1000) * (1 + ulp1))%Q) ∧
  scale (layout (num 500) (num 500)) = num 1 ∧
  scale (layout (num 2000) (num 1500)) = num 2 ∧
  sizeConstants L
    = (λ c, (c, Math_round (num c * scale L)%js))
        <$> [12; 10; 14; 11; 10; 8; 16; 6; 240; 65; 160; 115; 200; 95] ∧
  Forall (λ cv, ∃ n, cv.2 = num n ∧ 0 < n ∧
                     Z.abs (1000 * n - cv.1 * Z.max 1000 (Z.max W H)) <= 500)
         (sizeConstants L) ∧
  generateOverlaySVG address radiusMiles stats closestPOIs (num W) (num H)
    = header (num W) (num H) ++ styleBlock ++
      addressBox L address radiusMiles ++
      amenitiesBox L stats (num W) ++
      closestSection L (num H) (closestEntries closestPOIs) ++
      lit "</svg>".
Proof.
  intros HW HH L.
  assert (Hm : 0 < Z.max W H < 2 ^ 31) by lia.
  destruct (layout_scaleOf W H ltac:(lia) ltac:(lia)) as [Hscale Hsizes].
  fold L in Hscale, Hsizes. split_and!.
  - exact Hscale.
  - rewrite Hscale. destruct (decide (Z.max W H <= 1000)) as [Hsmall | Hlarge].
    + apply scaleOf_small. lia.
    + destruct (scaleOf_large (Z.max W H) ltac:(lia)) as (m & e & Hv & _ & Hb).
      by exists m, e.
  - by vm_compute.
  - by vm_compute.
  - by rewrite Hscale.
  - rewrite Hsizes. apply Forall_fmap, Forall_forall. intros c Hin.
    unfold compose. cbv beta. cbn [fst snd].
    assert (Hc : 0 < c < 1024).
    { repeat (apply elem_of_cons in Hin as [-> | Hin]; [lia |]). by apply elem_of_nil in Hin. }
    exact (size_value c (Z.max W H) Hc Hm).
  - apply generateOverlaySVG_text.
Qed.

Lemma layout_scaling_witness :
  ∃ n, padding (layout (num 2000) (num 1500)) = num n ∧ 0 < n ∧
       Z.abs (1000 * n - 12 * Z.max 1000 (Z.max 2000 1500)) <= 500.
Proof.
  pose proof (layout_scaling (address Samples.request) (radius Samples.request)
                (stats Samples.request) (closestPOIs Samples.request)
                2000 1500 ltac:(lia) ltac:(lia))
    as (_ & _ & _ & _ & _ & Hall & _).
  apply Forall_cons in Hall as [Hpadding _]. exact Hpadding.
Defined.

Ltac size_of c n Hn Hbound :=
  match goal with
  | Hm : 0 < ?m < 2 ^ 31 |- context [Math_round (num c * scaleOf ?m)%js] =>
      destruct (size_value c m ltac:(lia) Hm) as (n & Hn & _ & Hbound); rewrite Hn
  end.

(** X17. At every scale the rows stay inside their boxes. With the size
    constants read as integers: the fourth row of the closest-locations box
    is at most the height of that box below its top, the fifth row of the
    legend (with half a dot) at most the height of the amenities box below
    its top, and the second address line is above the radius label. *)
Theorem rows_fit_their_boxes (W H : Z) :
  0 < W < 2 ^ 31 -> 0 < H < 2 ^ 31 ->
  ∃ bp tf lh ds ah mh ch : Z,
    boxPadding (layout (num W) (num H)) = num bp ∧
    titleFontSize (layout (num W) (num H)) = num tf ∧
    lineHeight (layout (num W) (num H)) = num lh ∧
    dotSize (layout (num W) (num H)) = num ds ∧
    addressBoxHeight (layout (num W) (num H)) = num ah ∧
    amenitiesBoxHeight (layout (num W) (num H)) = num mh ∧
    closestBoxHeight (layout (num W) (num H)) = num ch ∧
    bp + tf + 4 * lh <= ch ∧
    2 * (bp + tf + 5 * lh) + ds <= 2 * mh ∧
    20 * (bp + tf) + 17 * lh <= 20 * (ah - bp - 2).
Proof.
  intros HW HH.
  assert (Hm : 0 < Z.max W H < 2 ^ 31) by lia.
  rewrite (layout_of_scaleOf W H) by lia. cbv zeta.
  cbn [padding boxPadding titleFontSize dotSize lineHeight addressBoxWidth addressBoxHeight
       amenitiesBoxWidth amenitiesBoxHeight closestBoxHeight].
  size_of 10 bp Ebp Bbp. size_of 14 tf Etf Btf. size_of 16 lh Elh Blh.
  size_of 8 ds Eds Bds. size_of 65 ah Eah Bah. size_of 115 mh Emh Bmh.
  size_of 95 ch Ech Bch.
  exists bp, tf, lh, ds, ah, mh, ch. split_and!; try reflexivity; lia.
Qed.

Lemma rows_fit_their_boxes_witness :
  ∃ bp tf lh ds ah mh ch : Z,
    boxPadding (layout (num 1280) (num 960)) = num bp ∧
    titleFontSize (layout (num 1280) (num 960)) = num tf ∧
    lineHeight (layout (num 1280) (num 960)) = num lh ∧
    dotSize (layout (num 1280) (num 960)) = num ds ∧
    addressBoxHeight (layout (num 1280) (num 960)) = num ah ∧
    amenitiesBoxHeight (layout (num 1280) (num 960)) = num mh ∧
    closestBoxHeight (layout (num 1280) (num 960)) = num ch ∧
    bp + tf + 4 * lh <= ch ∧
    2 * (bp + tf + 5 * lh) + ds <= 2 * mh ∧
    20 * (bp + tf) + 17 * lh <= 20 * (ah - bp - 2).
Proof.
  apply (rows_fit_their_boxes 1280 960); lia.
Defined.

(** X18. The boxes keep apart on a canvas that is large enough for its
    scale. With the size constants read as integers and
    [M = max(1000, W, H)]: when [W >= 0.424 M + 2] the address box ends to
    the left of the amenities box, and when [H >= 0.184 M + 2] it ends above
    the closest-locations box. Both hold for the default 1280 by 960. *)
Theorem boxes_keep_apart (W H : Z) :
  0 < W < 2 ^ 31 -> 0 < H < 2 ^ 31 ->
  ∃ p aw ah mw ch : Z,
    padding (layout (num W) (num H)) = num p ∧
    addressBoxWidth (layout (num W) (num H)) = num aw ∧
    addressBoxHeight (layout (num W) (num H)) = num ah ∧
    amenitiesBoxWidth (layout (num W) (num H)) = num mw ∧
    closestBoxHeight (layout (num W) (num H)) = num ch ∧
    (424 * Z.max 1000 (Z.max W H) + 2000 <= 1000 * W -> p + aw <= W - mw - p) ∧
    (184 * Z.max 1000 (Z.max W H) + 2000 <= 1000 * H -> p + ah <= H - ch - p).
Proof.
  intros HW HH.
  assert (Hm : 0 < Z.max W H < 2 ^ 31) by lia.
  rewrite (layout_of_scaleOf W H) by lia. cbv zeta.
  cbn [padding boxPadding titleFontSize dotSize lineHeight addressBoxWidth addressBoxHeight
       amenitiesBoxWidth amenitiesBoxHeight closestBoxHeight].
  size_of 12 p Ep Bp. size_of 240 aw Eaw Baw. size_of 65 ah Eah Bah.
  size_of 160 mw Emw Bmw. size_of 95 ch Ech Bch.
  exists p, aw, ah, mw, ch. split_and!; try reflexivity; lia.
Qed.

Lemma boxes_keep_apart_witness :
  ∃ p aw ah mw ch : Z,
    padding (layout (num 1280) (num 960)) = num p ∧
    addressBoxWidth (layout (num 1280) (num 960)) = num aw ∧
    addressBoxHeight (layout (num 1280) (num 960)) = num ah ∧
    amenitiesBoxWidth (layout (num 1280) (num 960)) = num mw ∧
    closestBoxHeight (layout (num 1280) (num 960)) = num ch ∧
    (424 * Z.max 1000 (Z.max 1280 960) + 2000 <= 1000 * 1280 -> p + aw <= 1280 - mw - p) ∧
    (184 * Z.max 1000 (Z.max 1280 960) + 2000 <= 1000 * 960 -> p + ah <= 960 - ch - p).
Proof.
  apply (boxes_keep_apart 1280 960); lia.
Defined.

(** * Failures of the composition phase *)

(** X19. When the base image is fetched but the image library rejects it,
    at the metadata query or at the composite step, [composeMapImage]
    throws the library's error unchanged and returns no image, and
    [compositeMap] writes that error to the console and answers with
    "Failed to compose map image". *)
Theorem composition_failure `{Host} (inp : CompositeMapInput) (console : list console_entry)
    (response : Response Buffer) (mapBuffer : Buffer) (e : exn) :
  fetch (mapUrl inp) = Ok response -> ok response = true ->
  arrayBuffer response = Ok mapBuffer ->
  sharp_metadata mapBuffer = Throw e ∨
  (∃ metadata,
     sharp_metadata mapBuffer = Ok metadata ∧
     sharp_composite_png mapBuffer
       [ {| input := generateOverlaySVG (address inp) (radius inp) (stats inp)
                       (closestPOIs inp)
                       (or_default (meta_width metadata) (num 1280))
                       (or_default (meta_height metadata) (num 960));
            top := num 0; left := num 0 |} ] = Throw e) ->
  composeMapImage inp = Throw e ∧
  compositeMap inp console
    = (Throw (new_Error (lit "Failed to compose map image")),
       console ++ [ {| label := lit "Image composition error:"; logged := e |} ]).
Proof.
  intros Hfetch Hok Hbody Hfail.
  assert (Hc : composeMapImage inp = Throw e).
  { unfold composeMapImage. rewrite Hfetch. cbn [mbind result_bind]. rewrite Hok.
    cbn [negb]. rewrite Hbody. cbn [mbind result_bind].
    destruct Hfail as [-> | (metadata & -> & Hcomposite)]; [done |].
    cbn [mbind result_bind]. by rewrite Hcomposite. }
  split; [exact Hc |]. unfold compositeMap. by rewrite Hc.
Qed.

Lemma composition_failure_witness :
  composeMapImage (H := Samples.serving (Samples.success Samples.garbage)) Samples.request
    = Throw (new_Error (lit "Input buffer contains unsupported image format")) ∧
  compositeMap (H := Samples.serving (Samples.success Samples.garbage)) Samples.request []
    = (Throw (new_Error (lit "Failed to compose map image")),
       [ {| label := lit "Image composition error:";
            logged := new_Error (lit "Input buffer contains unsupported image format") |} ]).
Proof.
  apply (composition_failure (H := Samples.serving (Samples.success Samples.garbage))
           Samples.request []
           {| ok := true; status := num 200; arrayBuffer := Ok Samples.garbage |}
           Samples.garbage).
  - reflexivity.
  - reflexivity.
  - reflexivity.
  - left. reflexivity.
Defined.

(** X20. [compositeMap] never passes an error of [composeMapImage] on to
    its caller: whatever it throws is "Failed to compose map image", and
    the cause is written to the console, once. When it answers, the answer
    is what [composeMapImage] returned and the console is left as it
    was. *)
Theorem compositeMap_single_error `{Host} (inp : CompositeMapInput)
    (console : list console_entry) :
  (∀ e, (compositeMap inp console).1 = Throw e ->
        e = new_Error (lit "Failed to compose map image") ∧
        ∃ cause, composeMapImage inp = Throw cause ∧
                 (compositeMap inp console).2
                   = console ++ [ {| label := lit "Image composition error:";
                                     logged := cause |} ]) ∧
  (∀ out, (compositeMap inp console).1 = Ok out ->
          composeMapImage inp = Ok (imageBase64 out) ∧
          (compositeMap inp console).2 = console).
Proof.
  unfold compositeMap. destruct (composeMapImage inp) as [image | cause]; cbn [fst snd].
  - split; [done |]. by intros out [= <-].
  - split; [| done]. intros e [= <-]. split; [done |]. by exists cause.
Qed.
